(** * SnakeEngine: a shallow embedding of [SEngine<U, UU>] and its properties

    The development follows [src/core/SnakeEngine.cpp] at the default
    template arguments, [U = unsigned char] and [UU = unsigned short].
    Values of the unsigned types are integers in [Z] with the wrap-around of
    every store written out ([to_U], [to_UU]); arithmetic on them is done in
    [int] after promotion, as C++ does, and [int] never overflows for these
    widths.

    - [std::vector<Cell*> snake] is a [list Cell.t], head first.  Every
      pointer comes from its own [new], so no two entries alias and a list
      of values carries the same information.
    - [wchar_t *buffer] is a [list wslot]; a slot that [malloc] returned and
      nobody has written yet is [indeterminate].  A store outside the
      allocation is undefined behaviour ([Undefined]).
    - [random.hpp] is not part of the engine; the generator is a parameter
      [rand_in_range] that threads an abstract generator state.
    - [addnewfood] loops with [goto retry]; the model takes fuel and answers
      [Spinning] when the fuel runs out inside the loop. *)

From Stdlib Require Import ZArith String Lia Bool.
From stdpp Require Import base tactics list.

Local Open Scope Z_scope.

(** ** Integer types *)

(** [unsigned char]: conversion of an [int] value to [U]. *)
Definition to_U (z : Z) : Z := z mod 256.

(** [unsigned short]: conversion of an [int] value to [UU]. *)
Definition to_UU (z : Z) : Z := z mod 65536.

Definition is_U (z : Z) : Prop := 0 <= z < 256.
Definition is_UU (z : Z) : Prop := 0 <= z < 65536.

(** ** Enumerations *)

Inductive Movement : Set := UP | DOWN | LEFT | RIGHT.

Inductive GameStatus : Set := NONE | WIN | LOST.

Definition Movement_eqb (a b : Movement) : bool :=
  match a, b with
  | UP, UP | DOWN, DOWN | LEFT, LEFT | RIGHT, RIGHT => true
  | _, _ => false
  end.

(** ** Cells *)

Module Cell.

Record t : Set := mk { x : Z; y : Z }.

(** [bool operator==(const Cell &c)] *)
Definition eqb (a c : t) : bool := (x a =? x c) && (y a =? y c).

(** [bool operator!=(const Cell &c)] *)
Definition neqb (a c : t) : bool := negb (eqb a c).

End Cell.

(** ** Outcomes of a call *)

Inductive outcome (A : Type) : Type :=
| Done (a : A)             (* the call returned *)
| Thrown (what : string)   (* std::runtime_error(what) left the call *)
| Spinning                 (* still inside the retry loop when the fuel ended *)
| Undefined.               (* undefined behaviour: front() of an empty vector,
                              or a store outside the buffer *)

Arguments Done {A} a.
Arguments Thrown {A} what.
Arguments Spinning {A}.
Arguments Undefined {A}.

Definition obind {A B : Type} (c : outcome A) (k : A -> outcome B) : outcome B :=
  match c with
  | Done a => k a
  | Thrown w => Thrown w
  | Spinning => Spinning
  | Undefined => Undefined
  end.

Notation "'call' v <~ c 'in' k" := (obind c (fun v => k))
  (at level 10, v name, c at level 100, k at level 200).

(** ** The text buffer *)

Inductive wslot : Set :=
| indeterminate            (* allocated, never written *)
| wch (c : Z).             (* a stored wchar_t *)

Definition FULL_BLOCK : Z := 9608.    (* L'█' *)
Definition SHADE : Z := 9618.         (* L'▒' *)
Definition BLACK_CIRCLE : Z := 9679.  (* L'●' *)
Definition SPACE : Z := 32.           (* L' '  *)
Definition NEWLINE : Z := 10.         (* L'\n' *)
Definition NUL : Z := 0.              (* L'\0' *)

(** A render pass threads the cursor [k] and the buffer. *)
Definition canvas : Type := (nat * list wslot)%type.

(** [buffer[k++] = c] *)
Definition put (c : Z) (s : canvas) : outcome canvas :=
  let '(k, b) := s in
  if decide (k < List.length b)%nat then Done (S k, <[k := wch c]> b)
  else Undefined.

(** [buffer[k] = c] *)
Definition store (c : Z) (s : canvas) : outcome canvas :=
  let '(k, b) := s in
  if decide (k < List.length b)%nat then Done (k, <[k := wch c]> b)
  else Undefined.

(** [k += n] *)
Definition skip (n : nat) (s : canvas) : canvas := ((fst s + n)%nat, snd s).

(** [for (i = start; ...; i++) body], for a loop that runs [n] times. *)
Fixpoint for_loop {St : Type} (n : nat) (i : Z) (body : Z -> St -> outcome St)
    (s : St) : outcome St :=
  match n with
  | O => Done s
  | S n' => call s' <~ body i s in for_loop n' (i + 1) body s'
  end.

(** ** The engine *)

Record SEngine : Type := mkSEngine {
  snake : list Cell.t;
  xsz : Z;
  ysz : Z;
  lv_food : Z;
  score : Z;
  food : Cell.t;
  prv_mv : Movement;
  buffer : list wslot;
  length : Z
}.

(** [signed char offset[4][2]] *)
Definition offset (mv : Movement) : Z * Z :=
  match mv with
  | UP => (-1, 0)
  | DOWN => (1, 0)
  | LEFT => (0, -1)
  | RIGHT => (0, 1)
  end.

Definition set_snake (e : SEngine) (s : list Cell.t) : SEngine :=
  mkSEngine s (xsz e) (ysz e) (lv_food e) (score e) (food e) (prv_mv e)
            (buffer e) (length e).

Definition set_buffer (e : SEngine) (b : list wslot) : SEngine :=
  mkSEngine (snake e) (xsz e) (ysz e) (lv_food e) (score e) (food e) (prv_mv e)
            b (length e).

(** [snake.front()] *)
Definition front (s : list Cell.t) : outcome Cell.t :=
  match s with
  | [] => Undefined
  | c :: _ => Done c
  end.

(** [bool find(const Cell &b)]: true when some snake cell equals [b]. *)
Fixpoint find_in (s : list Cell.t) (b : Cell.t) : bool :=
  match s with
  | [] => false
  | a :: r => if Cell.eqb a b then true else find_in r b
  end.

Definition find (e : SEngine) (b : Cell.t) : bool := find_in (snake e) b.

Definition isInvalidMovement (e : SEngine) (head : Cell.t) (mv : Movement) : bool :=
  (Cell.x head + fst (offset mv) <=? -1) || (Cell.x head + fst (offset mv) >=? xsz e)
  || (Cell.y head + snd (offset mv) <=? -1) || (Cell.y head + snd (offset mv) >=? ysz e).

Definition areOpposite (a b : Movement) : bool :=
  ((Movement_eqb a UP && Movement_eqb b DOWN) || (Movement_eqb a DOWN && Movement_eqb b UP))
  || ((Movement_eqb a LEFT && Movement_eqb b RIGHT) || (Movement_eqb a RIGHT && Movement_eqb b LEFT)).

(** [mv = areOpposite(mv, prv_mv) ? prv_mv : mv] *)
Definition clamp (mv prv : Movement) : Movement :=
  if areOpposite mv prv then prv else mv.

(** The head after [x += offset[mv][0]; y += offset[mv][1]]. *)
Definition advance (head : Cell.t) (mv : Movement) : Cell.t :=
  Cell.mk (to_U (Cell.x head + fst (offset mv)))
          (to_U (Cell.y head + snd (offset mv))).

(** The counting loop: the number of snake cells equal to the head. *)
Fixpoint occurrences (head : Cell.t) (s : list Cell.t) : Z :=
  match s with
  | [] => 0
  | c :: r => (if Cell.eqb c head then 1 else 0) + occurrences head r
  end.

(** The body-follow loop: every cell that differs from the head takes the
    value of [hold] and hands its own value on.  Returns the cells and the
    final [hold]. *)
Fixpoint follow (head hold : Cell.t) (s : list Cell.t) : list Cell.t * Cell.t :=
  match s with
  | [] => ([], hold)
  | c :: r =>
      if Cell.eqb c head then
        let '(r', h) := follow head hold r in (c :: r', h)
      else
        let '(r', h) := follow head c r in (hold :: r', h)
  end.

(** ** Rendering *)

(** [LENGTH(_XSZ_, _YSZ_)] *)
Definition LENGTH (XSZ YSZ : Z) : Z :=
  Z.shiftl ((XSZ + 2) * (YSZ + 2)) 1 + XSZ + 2.

(** One interior cell of the incremental pass. *)
Definition draw_cell (e : SEngine) (x y : Z) (s : canvas) : outcome canvas :=
  let hold := Cell.mk (to_U x) (to_U y) in
  let s := if y =? 0 then skip 2 s else s in
  call hd <~ front (snake e) in
  call s <~ (if Cell.eqb hd hold then
          call s <~ put FULL_BLOCK s in put FULL_BLOCK s
        else if find e hold then
          call s <~ put FULL_BLOCK s in put FULL_BLOCK s
        else if Cell.eqb hold (food e) then
          call s <~ put BLACK_CIRCLE s in put SPACE s
        else
          call s <~ put SPACE s in put SPACE s) in
  Done (if y =? ysz e - 1 then skip 3 s else s).

(** The loops of [to_wstr(false)]. *)
Definition draw_cells (e : SEngine) (s : canvas) : outcome canvas :=
  for_loop (Z.to_nat (xsz e)) 0
    (fun x => for_loop (Z.to_nat (ysz e)) 0 (fun y => draw_cell e x y)) s.

(** [for (y = 0; y <= ysz; y++) { two shades }], then two shades and a newline. *)
Definition draw_border_row (e : SEngine) (s : canvas) : outcome canvas :=
  call s <~ for_loop (Z.to_nat (ysz e + 1)) 0
         (fun _ s => call s <~ put SHADE s in put SHADE s) s in
  call s <~ put SHADE s in
  call s <~ put SHADE s in
  put NEWLINE s.

(** One interior cell of the first pass: borders only, the cell is skipped. *)
Definition draw_frame_cell (e : SEngine) (x y : Z) (s : canvas) : outcome canvas :=
  call s <~ (if y =? 0 then call s <~ put SHADE s in put SHADE s else Done s) in
  let s := skip 2 s in
  if y =? ysz e - 1 then
    call s <~ put SHADE s in call s <~ put SHADE s in put NEWLINE s
  else Done s.

(** The part of [to_wstr] after the label [_draw_all]. *)
Definition draw_all (e : SEngine) : outcome SEngine :=
  let len := LENGTH (xsz e) (ysz e) in
  let b := replicate (Z.to_nat (len + 1)) indeterminate in
  call s <~ draw_border_row e (O, b) in
  call s <~ for_loop (Z.to_nat (xsz e)) 0
         (fun x => for_loop (Z.to_nat (ysz e)) 0 (fun y => draw_frame_cell e x y)) s in
  call s <~ draw_border_row e s in
  call s <~ store NUL s in
  Done (mkSEngine (snake e) (xsz e) (ysz e) (lv_food e) (score e) (food e)
                  (prv_mv e) (snd s) len).

(** The cursor at which [draw_all] stops, for the size check that the source
    keeps in a comment ([k == length]). *)
Definition draw_all_cursor (e : SEngine) : outcome nat :=
  let len := LENGTH (xsz e) (ysz e) in
  let b := replicate (Z.to_nat (len + 1)) indeterminate in
  call s <~ draw_border_row e (O, b) in
  call s <~ for_loop (Z.to_nat (xsz e)) 0
         (fun x => for_loop (Z.to_nat (ysz e)) 0 (fun y => draw_frame_cell e x y)) s in
  call s <~ draw_border_row e s in
  Done (fst s).

(** [const wchar_t * to_wstr(bool isFirstCall = false)]; the returned pointer
    is [buffer] of the resulting engine. *)
Definition to_wstr (isFirstCall : bool) (e : SEngine) : outcome SEngine :=
  if isFirstCall then draw_all e
  else
    let k := Z.to_nat (Z.shiftl (ysz e + 1) 1 + 3) in
    call s <~ draw_cells e (k, buffer e) in
    Done (set_buffer e (snd s)).

Definition set_food (e : SEngine) (c : Cell.t) : SEngine :=
  mkSEngine (snake e) (xsz e) (ysz e) (lv_food e) (score e) c (prv_mv e)
            (buffer e) (length e).

Definition set_prv_mv (e : SEngine) (mv : Movement) : SEngine :=
  mkSEngine (snake e) (xsz e) (ysz e) (lv_food e) (score e) (food e) mv
            (buffer e) (length e).

Definition set_score (e : SEngine) (s : Z) : SEngine :=
  mkSEngine (snake e) (xsz e) (ysz e) (lv_food e) s (food e) (prv_mv e)
            (buffer e) (length e).

Definition set_lv_food (e : SEngine) (n : Z) : SEngine :=
  mkSEngine (snake e) (xsz e) (ysz e) n (score e) (food e) (prv_mv e)
            (buffer e) (length e).

(** The engine in the constructor after the two [push_back]s.  [food],
    [prv_mv] and [length] are indeterminate there and are assigned before
    anything reads them; [buffer] is the null pointer, which has no slot. *)
Definition two_cells (xsz ysz lv_food score : Z) : SEngine :=
  mkSEngine [ Cell.mk (to_U (xsz ÷ 2)) (to_U (ysz ÷ 2));
              Cell.mk (to_U (xsz ÷ 2)) (to_U (ysz ÷ 2 + 1)) ]
            xsz ysz lv_food score (Cell.mk 0 0) UP [] 0.

(** ** Operations that draw random numbers *)

Section Engine.

(** The state of the generator behind [random.hpp], and
    [rand_in_range(lo, hi)] as a function of that state. *)
Context {RNG : Type}.
Variable rand_in_range : Z -> Z -> RNG -> Z * RNG.

(** [Cell generate() const]; the two draws of the braced initialiser are
    made left to right, and each result is a value of type [U]. *)
Definition generate (e : SEngine) (g : RNG) : Cell.t * RNG :=
  let '(a, g) := rand_in_range (to_U 0) (to_U (xsz e - 1)) g in
  let '(b, g) := rand_in_range (to_U 0) (to_U (ysz e - 1)) g in
  (Cell.mk (to_U a) (to_U b), g).

(** [void addnewfood()]: one unit of fuel per pass through [retry:]. *)
Fixpoint addnewfood (fuel : nat) (e : SEngine) (g : RNG) : outcome (SEngine * RNG) :=
  match fuel with
  | O => Spinning
  | S fuel' =>
      let '(c, g) := generate e g in
      let e := set_food e c in
      if find_in (snake e) (food e) then addnewfood fuel' e g
      else Done (e, g)
  end.

(** [SEngine(U xsz, U ysz, U lv_food, UU score)] *)
Definition SEngine_ctor (fuel : nat) (xsz ysz lv_food score : Z) (g : RNG)
    : outcome (SEngine * RNG) :=
  if (xsz <? 9) || (ysz <? 9) then Thrown "board size too small"
  else if lv_food <=? 0 then Thrown "food must to be at least 1"
  else
    let e := two_cells xsz ysz lv_food score in
    call eg <~ addnewfood fuel e g in
    let e := set_prv_mv (fst eg) LEFT in
    call e <~ to_wstr true e in
    Done (e, snd eg).

(** The body of [move] below its first line, where [mv] is already the
    direction that will be applied. *)
Definition step (fuel : nat) (mv : Movement) (e : SEngine) (g : RNG)
    : outcome (GameStatus * SEngine * RNG) :=
  call hd <~ front (snake e) in
  if isInvalidMovement e hd mv then Done (LOST, e, g)
  else
    (* new head, updated in place *)
    let hold := hd in
    let head := advance hd mv in
    let e := set_snake e (head :: tail (snake e)) in
    (* check that it doesn't crash against itself *)
    let occurrence := occurrences head (snake e) in
    if occurrence >? 1 then Done (LOST, e, g)
    else
      (* each cell except the head takes the place of the previous *)
      let '(sn, hold) := follow head hold (snake e) in
      let e := set_snake e sn in
      if Cell.eqb head (food e) then
        let e := set_snake e (snake e ++ [hold]) in
        let e := set_score e (to_UU (score e + 1)) in
        call eg <~ addnewfood fuel e g in
        let e := set_lv_food (fst eg) (to_U (lv_food (fst eg) - 1)) in
        if lv_food e =? 0 then Done (WIN, e, snd eg)
        else Done (NONE, set_prv_mv e mv, snd eg)
      else Done (NONE, set_prv_mv e mv, g).

(** [GameStatus move(Movement mv)] *)
Definition move (fuel : nat) (mv : Movement) (e : SEngine) (g : RNG)
    : outcome (GameStatus * SEngine * RNG) :=
  step fuel (clamp mv (prv_mv e)) e g.

(** The cell drawn at the [n]-th pass through [retry:], and the generator
    after [n] passes. *)
Fixpoint generator_after (n : nat) (e : SEngine) (g : RNG) : RNG :=
  match n with
  | O => g
  | S n' => generator_after n' e (snd (generate e g))
  end.

Definition candidate (n : nat) (e : SEngine) (g : RNG) : Cell.t :=
  fst (generate e (generator_after n e g)).

(** The generator hits a cell off the given snake after finitely many draws. *)
Definition draws_free_cell (e : SEngine) (s : list Cell.t) (g : RNG) : Prop :=
  exists n : nat, find_in s (candidate n e g) = false.

(** States reached from a successful construction through moves that
    returned [NONE] and calls of [to_wstr()]. *)
Inductive reachable : SEngine -> Prop :=
| reach_ctor fuel xsz ysz lv_food score g e g' :
    is_U xsz -> is_U ysz -> is_U lv_food -> is_UU score ->
    SEngine_ctor fuel xsz ysz lv_food score g = Done (e, g') ->
    reachable e
| reach_move fuel mv e g e' g' :
    reachable e ->
    move fuel mv e g = Done (NONE, e', g') ->
    reachable e'
| reach_render e e' :
    reachable e ->
    to_wstr false e = Done e' ->
    reachable e'.

End Engine.

(** ** Vocabulary of the properties *)

(** The direction at 180 degrees of [d]. *)
Definition opposite (d : Movement) : Movement :=
  match d with
  | UP => DOWN
  | DOWN => UP
  | LEFT => RIGHT
  | RIGHT => LEFT
  end.

(** The direction [move] applies for a request [mv]. *)
Definition applied (e : SEngine) (mv : Movement) : Movement := clamp mv (prv_mv e).

(** The cell one step from [hd] in direction [d] lies in
    [0, xsz) x [0, ysz). *)
Definition inside (e : SEngine) (hd : Cell.t) (d : Movement) : Prop :=
  0 <= Cell.x hd + fst (offset d) < xsz e /\
  0 <= Cell.y hd + snd (offset d) < ysz e.

(** The request [mv] takes the head [hd] of the snake [hd :: tl] to a cell
    of the grid that no other snake cell occupies. *)
Definition clean_move (e : SEngine) (mv : Movement) (hd : Cell.t)
    (tl : list Cell.t) : Prop :=
  snake e = hd :: tl /\
  inside e hd (applied e mv) /\
  occurrences (advance hd (applied e mv)) (advance hd (applied e mv) :: tl) <= 1.

(** A clean move whose new head is on the food. *)
Definition eating_move (e : SEngine) (mv : Movement) (hd : Cell.t)
    (tl : list Cell.t) : Prop :=
  clean_move e mv hd tl /\ advance hd (applied e mv) = food e.

(** The engine of an eating move when [addnewfood] is called: the new head
    in front of the old cells, the score counted. *)
Definition grown (e : SEngine) (head : Cell.t) : SEngine :=
  set_score (set_snake e (head :: snake e)) (to_UU (score e + 1)).

(** The food is on no snake cell. *)
Definition food_is_free (e : SEngine) : Prop := find e (food e) = false.

(** Width of one line of the text: two border slots, two slots per cell,
    two border slots and the newline. *)
Definition row_width (e : SEngine) : Z := 2 * ysz e + 5.

(** Slot of the first glyph of cell [(x, y)]: line [x + 1] of the text,
    behind the left border. *)
Definition cell_index (e : SEngine) (x y : Z) : nat :=
  Z.to_nat ((x + 1) * row_width e + 2 + 2 * y).

(** Whether slot [i] belongs to a cell, not to the border. *)
Definition interior (e : SEngine) (i : nat) : bool :=
  let r := Z.of_nat i / row_width e in
  let c := Z.of_nat i mod row_width e in
  (1 <=? r) && (r <=? xsz e) && (2 <=? c) && (c <? 2 * ysz e + 2).

(** The cell that owns an interior slot. *)
Definition cell_of_slot (e : SEngine) (i : nat) : Cell.t :=
  Cell.mk (Z.of_nat i / row_width e - 1) ((Z.of_nat i mod row_width e - 2) / 2).

(** The glyph pair of a cell: snake, food or empty. *)
Definition cell_glyphs (e : SEngine) (c : Cell.t) : Z * Z :=
  if find e c then (FULL_BLOCK, FULL_BLOCK)
  else if Cell.eqb c (food e) then (BLACK_CIRCLE, SPACE)
  else (SPACE, SPACE).

(** The character an interior slot has to hold. *)
Definition glyph_at (e : SEngine) (i : nat) : Z :=
  if Z.even (Z.of_nat i mod row_width e) then fst (cell_glyphs e (cell_of_slot e i))
  else snd (cell_glyphs e (cell_of_slot e i)).

(** The character a border slot holds. *)
Definition border_at (e : SEngine) (i : nat) : Z :=
  if Z.of_nat i mod row_width e =? row_width e - 1 then NEWLINE else SHADE.

(** Buffer [b] shows the cells of [e]. *)
Definition shows (e : SEngine) (b : list wslot) : Prop :=
  forall x y : Z, 0 <= x < xsz e -> 0 <= y < ysz e ->
    b !! cell_index e x y = Some (wch (fst (cell_glyphs e (Cell.mk x y)))) /\
    b !! S (cell_index e x y) = Some (wch (snd (cell_glyphs e (Cell.mk x y)))).

(** The buffer has the slots [draw_all] allocated, and the terminator. *)
Definition allocated (e : SEngine) : Prop :=
  length e = LENGTH (xsz e) (ysz e) /\
  List.length (buffer e) = Z.to_nat (length e + 1) /\
  buffer e !! Z.to_nat (length e) = Some (wch NUL).

(** Every slot below [L] that is not a cell holds its border character, and
    slot [L] holds the terminator, where [L] is [LENGTH]. *)
Definition framed (e : SEngine) (b : list wslot) : Prop :=
  List.length b = Z.to_nat (LENGTH (xsz e) (ysz e) + 1) /\
  b !! Z.to_nat (LENGTH (xsz e) (ysz e)) = Some (wch NUL) /\
  forall i : nat, (i < Z.to_nat (LENGTH (xsz e) (ysz e)))%nat ->
    interior e i = false -> b !! i = Some (wch (border_at e i)).

(** What every engine satisfies once it is constructed. *)
Definition ready (e : SEngine) : Prop :=
  snake e <> [] /\ 9 <= xsz e < 256 /\ 9 <= ysz e < 256 /\
  length e = LENGTH (xsz e) (ysz e) /\ framed e (buffer e).

(** State of a pass with cursor [k] over the buffer [b0]: the slots below
    [k] selected by [P] hold the characters [v], all others are those of
    [b0]. *)
Definition filled (P : nat -> bool) (v : nat -> Z) (b0 b : list wslot)
    (k : nat) : Prop :=
  List.length b = List.length b0 /\
  forall i : nat,
    b !! i = if P i && (i <? k)%nat then Some (wch (v i)) else b0 !! i.

(** The number of slots of [b] that have been written. *)
Definition written (b : list wslot) : nat :=
  List.length (List.filter (fun w => match w with wch _ => true | indeterminate => false end) b).

(** The text in [b] is [n] characters long: a terminator at [n] and none
    before. *)
Definition text_length (b : list wslot) (n : nat) : Prop :=
  b !! n = Some (wch NUL) /\
  forall i : nat, (i < n)%nat -> exists c : Z, b !! i = Some (wch c) /\ c <> NUL.

(** ** A generator and engines to evaluate the model on *)

(** A counter: the [n]-th draw is [lo + n mod (hi - lo + 1)]. *)
Definition counter_rand (lo hi : Z) (n : nat) : Z * nat :=
  (lo + Z.of_nat n mod (hi - lo + 1), S n).

(** The engine a call returned, for calls that are known to return. *)
Definition engine_of (o : outcome (SEngine * nat)) : SEngine :=
  match o with
  | Done (e, _) => e
  | _ => two_cells 0 0 0 0
  end.

(** [SEngine(9, 9, 1, 0)] with the counter at 3: the food is drawn at
    [(3, 4)], right above the head, and the counter is left at 5. *)
Definition started : SEngine :=
  Eval vm_compute in engine_of (SEngine_ctor counter_rand 1 9 9 1 0 3%nat).

(** [SEngine(9, 9, 3, 7)], food above the head. *)
Definition hungry : SEngine :=
  Eval vm_compute in engine_of (SEngine_ctor counter_rand 1 9 9 3 7 3%nat).

(** [SEngine(9, 9, 2, 65535)], food above the head: the score is at the top
    of [unsigned short]. *)
Definition rich : SEngine :=
  Eval vm_compute in engine_of (SEngine_ctor counter_rand 1 9 9 2 65535 3%nat).

(** A four-cell snake curled into a square on a 9 x 9 board, heading [UP]:
    the cell to the left of the head is its tail. *)
Definition curled : SEngine :=
  mkSEngine [Cell.mk 4 4; Cell.mk 5 4; Cell.mk 5 3; Cell.mk 4 3]
            9 9 3 2 (Cell.mk 0 0) UP [] 0.

(** A five-cell snake on a 9 x 9 board, heading [UP]: the cell to the left
    of the head is the fourth cell of its body. *)
Definition knotted : SEngine :=
  mkSEngine [Cell.mk 4 4; Cell.mk 5 4; Cell.mk 5 3; Cell.mk 4 3; Cell.mk 3 3]
            9 9 3 2 (Cell.mk 0 0) UP [] 0.

(** A two-cell snake whose head is on the top line of a 9 x 9 board. *)
Definition at_top : SEngine :=
  mkSEngine [Cell.mk 0 4; Cell.mk 1 4] 9 9 1 0 (Cell.mk 7 7) UP [] 0.

(** ** The rest of the interface, and vocabulary for its properties *)

(** [UU get_score() const] *)
Definition get_score (e : SEngine) : Z := score e.

(** [U get_food() const] *)
Definition get_food (e : SEngine) : Z := lv_food e.

(** The cell lies in [0, xsz) x [0, ysz). *)
Definition in_grid (e : SEngine) (c : Cell.t) : Prop :=
  0 <= Cell.x c < xsz e /\ 0 <= Cell.y c < ysz e.

(** Two cells that share a side. *)
Definition adjacent (a b : Cell.t) : Prop :=
  Z.abs (Cell.x a - Cell.x b) + Z.abs (Cell.y a - Cell.y b) = 1.

(** Every cell shares a side with the next one. *)
Fixpoint chain (s : list Cell.t) : Prop :=
  match s with
  | a :: r => match r with
              | b :: _ => adjacent a b /\ chain r
              | [] => True
              end
  | [] => True
  end.

(** The head is one step from the second cell in the last direction. *)
Definition heads_away (e : SEngine) : Prop :=
  match snake e with
  | hd :: neck :: _ =>
      hd = Cell.mk (Cell.x neck + fst (offset (prv_mv e)))
                   (Cell.y neck + snd (offset (prv_mv e)))
  | _ => True
  end.

(** The shape of the snake in a running game. *)
Definition well_shaped (e : SEngine) : Prop :=
  (2 <= List.length (snake e))%nat /\
  (forall c, In c (snake e) -> in_grid e c) /\
  List.NoDup (snake e) /\
  chain (snake e) /\
  heads_away e.

Section Play.

Context {RNG : Type}.
Variable rand_in_range : Z -> Z -> RNG -> Z * RNG.

(** The engines of a game started by [SEngine(X, Y, F, SC)]: the one the
    constructor returned, and those that moves returning [NONE] and calls
    of [to_wstr()] lead to. *)
Inductive played (X Y F SC : Z) : SEngine -> Prop :=
| played_ctor fuel g e g' :
    is_U X -> is_U Y -> is_U F -> is_UU SC ->
    SEngine_ctor rand_in_range fuel X Y F SC g = Done (e, g') ->
    played X Y F SC e
| played_move fuel mv e g e' g' :
    played X Y F SC e ->
    move rand_in_range fuel mv e g = Done (NONE, e', g') ->
    played X Y F SC e'
| played_render e e' :
    played X Y F SC e ->
    to_wstr false e = Done e' ->
    played X Y F SC e'.

(** The generator keeps to the range it is asked for. *)
Definition keeps_range : Prop :=
  forall (lo hi : Z) (g : RNG),
    lo <= hi -> lo <= fst (rand_in_range lo hi g) <= hi.

End Play.

(** A generator that always draws the low end of the range. *)
Definition stuck_rand (lo hi : Z) (g : unit) : Z * unit := (lo, g).

(** A two-cell snake lying on the corner cell [(0, 0)] of a 9 x 9 board. *)
Definition cornered : SEngine :=
  mkSEngine [Cell.mk 0 0; Cell.mk 0 1] 9 9 1 0 (Cell.mk 7 7) LEFT [] 0.

(** An engine after a win: no food remaining, food above the head. *)
Definition won : SEngine :=
  mkSEngine [Cell.mk 4 4; Cell.mk 4 5; Cell.mk 4 6] 9 9 0 1 (Cell.mk 3 4) LEFT [] 0.

(** * Properties *)

(** ** Cells, the snake as a list *)

Lemma Cell_eqb_eq (a c : Cell.t) : Cell.eqb a c = true <-> a = c.
Proof.
  destruct a as [ax ay], c as [bx by_]; unfold Cell.eqb; simpl.
  rewrite andb_true_iff, !Z.eqb_eq. split.
  - intros [-> ->]; reflexivity.
  - intros H; injection H; auto.
Qed.

Lemma Cell_eqb_refl (a : Cell.t) : Cell.eqb a a = true.
Proof. apply Cell_eqb_eq; reflexivity. Qed.

Lemma Cell_eqb_neq (a c : Cell.t) : Cell.eqb a c = false <-> a <> c.
Proof.
  rewrite <- Cell_eqb_eq. destruct (Cell.eqb a c); split; congruence.
Qed.

Lemma find_in_true (s : list Cell.t) (b : Cell.t) : find_in s b = true <-> In b s.
Proof.
  induction s as [|a r IH]; simpl.
  - split; [discriminate | tauto].
  - destruct (Cell.eqb a b) eqn:E.
    + apply Cell_eqb_eq in E. tauto.
    + apply Cell_eqb_neq in E. rewrite IH. tauto.
Qed.

Lemma find_in_false (s : list Cell.t) (b : Cell.t) : find_in s b = false <-> ~ In b s.
Proof.
  rewrite <- find_in_true. destruct (find_in s b); split; congruence.
Qed.

Lemma occurrences_nonneg (h : Cell.t) (s : list Cell.t) : 0 <= occurrences h s.
Proof. induction s as [|c r IH]; simpl; [lia | destruct (Cell.eqb c h); lia]. Qed.

Lemma occurrences_zero (h : Cell.t) (s : list Cell.t) :
  occurrences h s = 0 <-> ~ In h s.
Proof.
  induction s as [|c r IH]; simpl; [tauto|].
  pose proof (occurrences_nonneg h r) as Hn.
  destruct (Cell.eqb c h) eqn:E.
  - apply Cell_eqb_eq in E. split; [lia | tauto].
  - apply Cell_eqb_neq in E. rewrite Z.add_0_l, IH. tauto.
Qed.

(** With the head counted once, nothing behind it equals it. *)
Lemma occurrences_head (h : Cell.t) (s : list Cell.t) :
  occurrences h (h :: s) = 1 + occurrences h s.
Proof. simpl. rewrite Cell_eqb_refl. reflexivity. Qed.

Lemma single_occurrence (h : Cell.t) (s : list Cell.t) :
  (occurrences h (h :: s) >? 1) = false <-> ~ In h s.
Proof.
  rewrite occurrences_head, <- occurrences_zero.
  pose proof (occurrences_nonneg h s). rewrite Z.gtb_ltb, Z.ltb_ge. lia.
Qed.

Lemma last_default (s : list Cell.t) (d d' : Cell.t) :
  s <> [] -> List.last s d = List.last s d'.
Proof.
  induction s as [|c r IH]; intros Hne; [congruence|].
  destruct r as [|c' r']; [reflexivity|].
  change (List.last (c' :: r') d = List.last (c' :: r') d').
  apply IH; discriminate.
Qed.

(** Behind the head, [follow] shifts every cell by one place. *)
Lemma follow_shift (h : Cell.t) (s : list Cell.t) :
  ~ In h s -> forall hold,
  follow h hold s = (removelast (hold :: s), List.last s hold).
Proof.
  induction s as [|c r IH]; intros Hn hold; [reflexivity|].
  assert (Hc : Cell.eqb c h = false) by (apply Cell_eqb_neq; intros ->; apply Hn; left; reflexivity).
  assert (Hr : ~ In h r) by (intros Hin; apply Hn; right; exact Hin).
  cbn [follow]. rewrite Hc, (IH Hr c).
  destruct r as [|c' r']; [reflexivity|].
  change (List.last (c :: c' :: r') hold) with (List.last (c' :: r') hold).
  rewrite (last_default (c' :: r') c hold) by discriminate. reflexivity.
Qed.

Lemma follow_snake (h hold : Cell.t) (s : list Cell.t) :
  ~ In h s ->
  follow h hold (h :: s) = (h :: removelast (hold :: s), List.last s hold).
Proof.
  intros Hn. cbn [follow]. rewrite Cell_eqb_refl, (follow_shift h s Hn hold).
  reflexivity.
Qed.

Lemma removelast_last (hold : Cell.t) (s : list Cell.t) :
  removelast (hold :: s) ++ [List.last s hold] = hold :: s.
Proof.
  assert (Hl : List.last (hold :: s) hold = List.last s hold)
    by (destruct s; reflexivity).
  rewrite <- Hl. symmetry. apply app_removelast_last. discriminate.
Qed.

(** The head moves by exactly one column or one line, never onto itself. *)
Lemma advance_moves (hd : Cell.t) (mv : Movement) : advance hd mv <> hd.
Proof.
  destruct hd as [hx hy]; unfold advance, to_U; simpl.
  intros H; injection H as Hx Hy.
  destruct mv; simpl in *; Z.div_mod_to_equations; lia.
Qed.

Lemma isInvalidMovement_false (e : SEngine) (hd : Cell.t) (d : Movement) :
  isInvalidMovement e hd d = false <-> inside e hd d.
Proof.
  unfold isInvalidMovement, inside.
  rewrite !orb_false_iff, !Z.leb_gt, !Z.geb_leb, !Z.leb_gt. lia.
Qed.

Lemma isInvalidMovement_true (e : SEngine) (hd : Cell.t) (d : Movement) :
  isInvalidMovement e hd d = true <-> ~ inside e hd d.
Proof.
  rewrite <- isInvalidMovement_false.
  destruct (isInvalidMovement e hd d); split; congruence.
Qed.

Lemma areOpposite_opposite (a b : Movement) :
  areOpposite a b = true <-> a = opposite b.
Proof. destruct a, b; cbn; split; congruence. Qed.

Lemma clamp_opposite (d : Movement) : clamp (opposite d) d = d.
Proof. destruct d; reflexivity. Qed.

Lemma clamp_other (mv d : Movement) : mv <> opposite d -> clamp mv d = mv.
Proof.
  intros Hne. unfold clamp. destruct (areOpposite mv d) eqn:E; [|reflexivity].
  apply areOpposite_opposite in E. contradiction.
Qed.

Lemma last_in_tail (hd c : Cell.t) (tl : list Cell.t) :
  last (hd :: tl) = Some c -> c <> hd -> In c tl.
Proof.
  revert hd. induction tl as [|a r IH]; intros hd Hl Hne.
  - simpl in Hl. congruence.
  - change (last (a :: r) = Some c) in Hl.
    destruct (Cell.eqb c a) eqn:E.
    + apply Cell_eqb_eq in E. left. congruence.
    + apply Cell_eqb_neq in E. right. apply (IH a Hl E).
Qed.

(** Reading a field of an engine built by the setters. *)
Ltac fields :=
  unfold set_snake, set_buffer, set_food, set_prv_mv, set_score, set_lv_food, grown in *;
  cbn [snake xsz ysz lv_food score food prv_mv buffer length] in *.

(** ** One move *)

Section Moves.

Context {RNG : Type}.
Variable rand_in_range : Z -> Z -> RNG -> Z * RNG.

Implicit Types (e : SEngine) (g : RNG) (mv d : Movement) (hd : Cell.t)
  (tl : list Cell.t) (fuel : nat).

Lemma generate_dims e1 e2 g :
  xsz e1 = xsz e2 -> ysz e1 = ysz e2 ->
  generate rand_in_range e1 g = generate rand_in_range e2 g.
Proof. intros Hx Hy. unfold generate. rewrite Hx, Hy. reflexivity. Qed.

Lemma candidate_dims n e1 e2 g :
  xsz e1 = xsz e2 -> ysz e1 = ysz e2 ->
  candidate rand_in_range n e1 g = candidate rand_in_range n e2 g.
Proof.
  intros Hx Hy. unfold candidate. revert g.
  induction n as [|n IH]; intros g; cbn [generator_after].
  - rewrite (generate_dims e1 e2) by assumption. reflexivity.
  - rewrite (generate_dims e1 e2 g) by assumption. apply IH.
Qed.

(** When [addnewfood] returns it has changed the food only, and the food
    is on no snake cell. *)
Lemma addnewfood_sound fuel e g e' g' :
  addnewfood rand_in_range fuel e g = Done (e', g') ->
  e' = set_food e (food e') /\ find_in (snake e) (food e') = false.
Proof.
  revert e g. induction fuel as [|fuel IH]; intros e g H; [discriminate|].
  cbn [addnewfood] in H.
  destruct (generate rand_in_range e g) as [c g1]. fields.
  destruct (find_in (snake e) c) eqn:E.
  - apply IH in H. fields. exact H.
  - injection H as <- <-. split; [reflexivity | exact E].
Qed.

(** [addnewfood] returns as soon as the generator draws a free cell. *)
Lemma addnewfood_returns n e g :
  find_in (snake e) (candidate rand_in_range n e g) = false ->
  exists e' g', addnewfood rand_in_range (S n) e g = Done (e', g').
Proof.
  revert e g. induction n as [|n IH]; intros e g H.
  - unfold candidate in H. cbn [generator_after] in H. cbn [addnewfood].
    destruct (generate rand_in_range e g) as [c g1]. cbn [fst] in H.
    fields. rewrite H. eauto.
  - change (addnewfood rand_in_range (S (S n)) e g)
      with (let '(c, g0) := generate rand_in_range e g in
            let e0 := set_food e c in
            if find_in (snake e0) (food e0)
            then addnewfood rand_in_range (S n) e0 g0 else Done (e0, g0)).
    unfold candidate in H. cbn [generator_after] in H.
    destruct (generate rand_in_range e g) as [c g1] eqn:G. cbn [snd] in H.
    fields.
    destruct (find_in (snake e) c); [|eauto].
    apply IH. fields.
    rewrite (candidate_dims n _ e) by reflexivity. exact H.
Qed.

(** *** The four ways through [step] *)

Lemma step_bounds fuel d e g hd tl :
  snake e = hd :: tl -> ~ inside e hd d ->
  step rand_in_range fuel d e g = Done (LOST, e, g).
Proof.
  intros Hs Hout. apply isInvalidMovement_true in Hout.
  unfold step. rewrite Hs. cbn [front obind]. rewrite Hout. reflexivity.
Qed.

Lemma step_collision fuel d e g hd tl :
  snake e = hd :: tl -> inside e hd d ->
  occurrences (advance hd d) (advance hd d :: tl) > 1 ->
  step rand_in_range fuel d e g = Done (LOST, set_snake e (advance hd d :: tl), g).
Proof.
  intros Hs Hin Hocc. apply isInvalidMovement_false in Hin.
  unfold step. rewrite Hs. cbn [front obind tail]. rewrite Hin.
  fields.
  replace (occurrences (advance hd d) (advance hd d :: tl) >? 1) with true
    by (symmetry; apply Z.gtb_lt; lia).
  reflexivity.
Qed.

Lemma step_plain fuel d e g hd tl :
  snake e = hd :: tl -> inside e hd d ->
  occurrences (advance hd d) (advance hd d :: tl) <= 1 ->
  advance hd d <> food e ->
  step rand_in_range fuel d e g =
  Done (NONE, set_prv_mv (set_snake e (advance hd d :: removelast (hd :: tl))) d, g).
Proof.
  intros Hs Hin Hocc Hfood. apply isInvalidMovement_false in Hin.
  unfold step. rewrite Hs. cbn [front obind tail]. rewrite Hin.
  fields.
  assert (Hgt : (occurrences (advance hd d) (advance hd d :: tl) >? 1) = false)
    by (rewrite Z.gtb_ltb; apply Z.ltb_ge; lia).
  rewrite Hgt. apply single_occurrence in Hgt.
  rewrite (follow_snake _ hd tl Hgt). fields.
  apply Cell_eqb_neq in Hfood. rewrite Hfood. reflexivity.
Qed.

Lemma step_eating fuel d e g hd tl :
  snake e = hd :: tl -> inside e hd d ->
  occurrences (advance hd d) (advance hd d :: tl) <= 1 ->
  advance hd d = food e ->
  step rand_in_range fuel d e g =
  (call eg <~ addnewfood rand_in_range fuel (grown e (advance hd d)) g in
   let e1 := set_lv_food (fst eg) (to_U (lv_food (fst eg) - 1)) in
   if lv_food e1 =? 0 then Done (WIN, e1, snd eg)
   else Done (NONE, set_prv_mv e1 d, snd eg)).
Proof.
  intros Hs Hin Hocc Hfood. apply isInvalidMovement_false in Hin.
  unfold step. rewrite Hs. cbn [front obind tail]. rewrite Hin.
  fields.
  assert (Hgt : (occurrences (advance hd d) (advance hd d :: tl) >? 1) = false)
    by (rewrite Z.gtb_ltb; apply Z.ltb_ge; lia).
  rewrite Hgt. apply single_occurrence in Hgt.
  rewrite (follow_snake _ hd tl Hgt). fields.
  apply Cell_eqb_eq in Hfood. rewrite Hfood, Hs.
  rewrite <- app_comm_cons, removelast_last. reflexivity.
Qed.

(** *** Claims about a single move *)

(** C2. When the cell one step from the head in the applied direction is
    outside the grid, [move] returns [LOST] and the engine it leaves is the
    engine it found: snake, food, score, remaining food, last direction
    (and buffer) are unchanged, and no random number is drawn. *)
Theorem bounds_loss_changes_nothing fuel mv e g hd tl :
  snake e = hd :: tl ->
  ~ inside e hd (applied e mv) ->
  move rand_in_range fuel mv e g = Done (LOST, e, g).
Proof. intros Hs Hout. unfold move. eapply step_bounds; eassumption. Qed.

(** C3. A request for the opposite of the last direction gives the status
    and the engine that a request for the last direction gives; any other
    request (the last direction itself, or one at right angles to it) is
    applied as it is. *)
Theorem opposite_request_is_clamped fuel e g :
  move rand_in_range fuel (opposite (prv_mv e)) e g
  = move rand_in_range fuel (prv_mv e) e g
  /\ (forall mv, mv <> opposite (prv_mv e) ->
      applied e mv = mv /\
      move rand_in_range fuel mv e g = step rand_in_range fuel mv e g).
Proof.
  split.
  - unfold move. rewrite clamp_opposite.
    rewrite (clamp_other (prv_mv e) (prv_mv e)) by (destruct (prv_mv e); discriminate).
    reflexivity.
  - intros mv Hne. unfold move, applied. rewrite (clamp_other _ _ Hne). auto.
Qed.

(** C4. When an in-bounds move puts the head on a cell that another snake
    cell occupies (more than one cell equals the new head), [move] returns
    [LOST]; the engine keeps the moved head and is otherwise untouched:
    the cells behind the head, the food, the score, the remaining food and
    the last direction are those of before the call. *)
Theorem self_collision_loss fuel mv e g hd tl :
  snake e = hd :: tl ->
  inside e hd (applied e mv) ->
  occurrences (advance hd (applied e mv)) (advance hd (applied e mv) :: tl) > 1 ->
  move rand_in_range fuel mv e g
  = Done (LOST, mkSEngine (advance hd (applied e mv) :: tl) (xsz e) (ysz e)
                          (lv_food e) (score e) (food e) (prv_mv e)
                          (buffer e) (length e), g).
Proof. intros Hs Hin Hocc. unfold move. eapply step_collision; eassumption. Qed.

(** C10. An in-bounds move onto the cell that the tail occupies returns
    [LOST]: the cells are counted before the body would have followed. *)
Theorem tail_cell_loss fuel mv e g hd tl :
  snake e = hd :: tl ->
  inside e hd (applied e mv) ->
  last (snake e) = Some (advance hd (applied e mv)) ->
  exists e', move rand_in_range fuel mv e g = Done (LOST, e', g)
             /\ snake e' = advance hd (applied e mv) :: tl.
Proof.
  intros Hs Hin Hl. rewrite Hs in Hl.
  apply last_in_tail in Hl; [|apply advance_moves].
  eexists. split.
  - unfold move. eapply step_collision; [eassumption..|].
    rewrite occurrences_head.
    assert (occurrences (advance hd (applied e mv)) tl <> 0)
      by (rewrite occurrences_zero; tauto).
    pose proof (occurrences_nonneg (advance hd (applied e mv)) tl). unfold applied in *. lia.
  - reflexivity.
Qed.

End Moves.

(** ** Rendering leaves the game alone *)

Lemma draw_all_fields (e e' : SEngine) :
  draw_all e = Done e' ->
  e' = mkSEngine (snake e) (xsz e) (ysz e) (lv_food e) (score e) (food e)
                 (prv_mv e) (buffer e') (LENGTH (xsz e) (ysz e)).
Proof.
  unfold draw_all. intros H.
  repeat match type of H with
         | obind ?c _ = Done _ => destruct c; cbn [obind] in H; try discriminate
         end.
  injection H as <-. reflexivity.
Qed.

Lemma to_wstr_fields (first : bool) (e e' : SEngine) :
  to_wstr first e = Done e' ->
  snake e' = snake e /\ xsz e' = xsz e /\ ysz e' = ysz e /\
  lv_food e' = lv_food e /\ score e' = score e /\ food e' = food e /\
  prv_mv e' = prv_mv e.
Proof.
  destruct first; cbn [to_wstr]; intros H.
  - apply draw_all_fields in H. rewrite H. cbn. tauto.
  - destruct (draw_cells e _); cbn [obind] in H; try discriminate.
    injection H as <-. cbn. tauto.
Qed.

Lemma in_removelast (c : Cell.t) (s : list Cell.t) : In c (removelast s) -> In c s.
Proof.
  induction s as [|a r IH]; [tauto|].
  destruct r as [|b r']; [simpl; tauto|].
  change (removelast (a :: b :: r')) with (a :: removelast (b :: r')).
  intros [->|Hin]; [left; reflexivity | right; apply IH; exact Hin].
Qed.

(** ** Food *)

Section Food.

Context {RNG : Type}.
Variable rand_in_range : Z -> Z -> RNG -> Z * RNG.

Implicit Types (e : SEngine) (g : RNG) (mv d : Movement) (hd : Cell.t)
  (tl : list Cell.t) (fuel : nat) (st : GameStatus).

(** What an eating step leaves when it returns. *)
Lemma step_eating_outcome fuel d e g hd tl st e' g' :
  snake e = hd :: tl -> inside e hd d ->
  occurrences (advance hd d) (advance hd d :: tl) <= 1 ->
  advance hd d = food e ->
  step rand_in_range fuel d e g = Done (st, e', g') ->
  exists c : Cell.t,
    find_in (advance hd d :: snake e) c = false /\
    ((st = WIN /\ to_U (lv_food e - 1) = 0 /\
      e' = mkSEngine (advance hd d :: snake e) (xsz e) (ysz e)
                     (to_U (lv_food e - 1)) (to_UU (score e + 1)) c
                     (prv_mv e) (buffer e) (length e))
     \/
     (st = NONE /\ to_U (lv_food e - 1) <> 0 /\
      e' = mkSEngine (advance hd d :: snake e) (xsz e) (ysz e)
                     (to_U (lv_food e - 1)) (to_UU (score e + 1)) c
                     d (buffer e) (length e))).
Proof.
  intros Hs Hin Hocc Hfood H.
  rewrite (step_eating _ _ _ _ _ _ _ Hs Hin Hocc Hfood) in H.
  destruct (addnewfood rand_in_range fuel (grown e (advance hd d)) g)
    as [[e1 g1]| | |] eqn:A; cbn [obind] in H; try discriminate.
  apply addnewfood_sound in A. destruct A as [He1 Hfree].
  cbn [fst snd] in H. fields.
  exists (food e1). split; [exact Hfree|].
  rewrite He1 in H. fields.
  destruct (to_U (lv_food e - 1) =? 0) eqn:Z0.
  - apply Z.eqb_eq in Z0. injection H as <- <- <-. left. auto.
  - apply Z.eqb_neq in Z0. injection H as <- <- <-. right. auto.
Qed.

(** An eating step returns once the generator draws a free cell. *)
Lemma step_eating_returns d e g hd tl :
  snake e = hd :: tl -> inside e hd d ->
  occurrences (advance hd d) (advance hd d :: tl) <= 1 ->
  advance hd d = food e ->
  draws_free_cell rand_in_range e (advance hd d :: snake e) g ->
  exists fuel st e' g', step rand_in_range fuel d e g = Done (st, e', g').
Proof.
  intros Hs Hin Hocc Hfood [n Hn].
  destruct (addnewfood_returns rand_in_range n (grown e (advance hd d)) g)
    as (e1 & g1 & A).
  { fields. rewrite (candidate_dims _ n _ e) by reflexivity. exact Hn. }
  exists (S n).
  rewrite (step_eating _ _ _ _ _ _ _ Hs Hin Hocc Hfood), A. cbn [obind fst snd].
  destruct (lv_food _ =? 0); eauto.
Qed.

(** Every way [step] can return. *)
Lemma step_inv fuel d e g st e' g' :
  step rand_in_range fuel d e g = Done (st, e', g') ->
  exists hd tl, snake e = hd :: tl /\
    ((~ inside e hd d /\ st = LOST /\ e' = e /\ g' = g)
     \/ (inside e hd d /\ In (advance hd d) tl /\ st = LOST /\
         e' = set_snake e (advance hd d :: tl) /\ g' = g)
     \/ (inside e hd d /\ ~ In (advance hd d) tl /\ advance hd d <> food e /\
         st = NONE /\
         e' = set_prv_mv (set_snake e (advance hd d :: removelast (hd :: tl))) d /\
         g' = g)
     \/ (inside e hd d /\ ~ In (advance hd d) tl /\ advance hd d = food e /\
         occurrences (advance hd d) (advance hd d :: tl) <= 1)).
Proof.
  intros H. destruct (snake e) as [|hd tl] eqn:Hs.
  { unfold step in H. rewrite Hs in H. discriminate. }
  exists hd, tl. split; [reflexivity|].
  destruct (isInvalidMovement e hd d) eqn:Hinv.
  { apply isInvalidMovement_true in Hinv.
    rewrite (step_bounds _ _ _ _ _ _ _ Hs Hinv) in H. injection H as <- <- <-.
    left. auto. }
  apply isInvalidMovement_false in Hinv. right.
  destruct (occurrences (advance hd d) (advance hd d :: tl) >? 1) eqn:Hocc.
  { assert (Hgt : occurrences (advance hd d) (advance hd d :: tl) > 1)
      by (apply Z.gtb_lt in Hocc; lia).
    rewrite (step_collision _ _ _ _ _ _ _ Hs Hinv Hgt) in H. injection H as <- <- <-.
    left. split; [exact Hinv|]. split; [|auto].
    rewrite occurrences_head in Hgt.
    destruct (find_in tl (advance hd d)) eqn:F; [apply find_in_true; exact F|].
    apply find_in_false, occurrences_zero in F. lia. }
  assert (Hle : occurrences (advance hd d) (advance hd d :: tl) <= 1)
    by (rewrite Z.gtb_ltb in Hocc; apply Z.ltb_ge in Hocc; lia).
  apply single_occurrence in Hocc. right.
  destruct (Cell.eqb (advance hd d) (food e)) eqn:Hf.
  - apply Cell_eqb_eq in Hf. right. auto.
  - apply Cell_eqb_neq in Hf.
    rewrite (step_plain _ _ _ _ _ _ _ Hs Hinv Hle Hf) in H. injection H as <- <- <-.
    left. auto 10.
Qed.

(** C1 (amended). An eating move that returns leaves the new head in front
    of all the old cells, so the snake is one cell longer and its last
    cell is where the tail was; the score is the old score plus 1 in 16
    bits (plus 1 exactly below 65535), the remaining food is the old one
    minus 1 in 8 bits (minus 1 exactly from 1 upwards), and the new food is
    on no snake cell.  The move returns once the generator draws a cell
    off the grown snake. *)
Theorem growth_on_food mv e g hd tl :
  eating_move e mv hd tl ->
  is_UU (score e) -> is_U (lv_food e) ->
  (forall fuel st e' g',
      move rand_in_range fuel mv e g = Done (st, e', g') ->
      snake e' = advance hd (applied e mv) :: snake e /\
      List.length (snake e') = S (List.length (snake e)) /\
      last (snake e') = last (snake e) /\
      score e' = to_UU (score e + 1) /\
      (score e < 65535 -> score e' = score e + 1) /\
      lv_food e' = to_U (lv_food e - 1) /\
      (1 <= lv_food e -> lv_food e' = lv_food e - 1) /\
      food_is_free e')
  /\ (draws_free_cell rand_in_range e (advance hd (applied e mv) :: snake e) g ->
      exists fuel st e' g', move rand_in_range fuel mv e g = Done (st, e', g')).
Proof.
  intros [(Hs & Hin & Hocc) Hfood] Hsc Hlv. split.
  - intros fuel st e' g' H. unfold move in H.
    destruct (step_eating_outcome _ _ _ _ _ _ _ _ _ Hs Hin Hocc Hfood H)
      as (c & Hfree & Hcases).
    assert (Hsmall : score e < 65535 -> to_UU (score e + 1) = score e + 1)
      by (intros; unfold to_UU; apply Z.mod_small; unfold is_UU in Hsc; lia).
    assert (Hpos : 1 <= lv_food e -> to_U (lv_food e - 1) = lv_food e - 1)
      by (intros; unfold to_U; apply Z.mod_small; unfold is_U in Hlv; lia).
    assert (Hlast : last (advance hd (applied e mv) :: snake e) = last (snake e))
      by (rewrite Hs; reflexivity).
    destruct Hcases as [(-> & _ & ->)|(-> & _ & ->)];
      unfold food_is_free, find; cbn [snake score lv_food food List.length];
      auto 10.
  - intros Hdraw. unfold move. eapply step_eating_returns; eassumption.
Qed.

(** C5. An eating move made with one food remaining returns [WIN] and
    leaves no food remaining; made with more than one remaining it returns
    [NONE] (continue).  In both cases the move returns once the generator
    draws a cell off the grown snake. *)
Theorem win_on_last_food mv e g hd tl :
  eating_move e mv hd tl ->
  is_U (lv_food e) ->
  (lv_food e = 1 ->
     (forall fuel st e' g',
         move rand_in_range fuel mv e g = Done (st, e', g') ->
         st = WIN /\ lv_food e' = 0)
     /\ (draws_free_cell rand_in_range e (advance hd (applied e mv) :: snake e) g ->
         exists fuel e' g',
           move rand_in_range fuel mv e g = Done (WIN, e', g') /\ lv_food e' = 0))
  /\ (1 < lv_food e ->
     (forall fuel st e' g',
         move rand_in_range fuel mv e g = Done (st, e', g') ->
         st = NONE /\ lv_food e' = lv_food e - 1)
     /\ (draws_free_cell rand_in_range e (advance hd (applied e mv) :: snake e) g ->
         exists fuel e' g',
           move rand_in_range fuel mv e g = Done (NONE, e', g'))).
Proof.
  intros [(Hs & Hin & Hocc) Hfood] Hlv.
  assert (Hone : lv_food e = 1 -> forall fuel st e' g',
             move rand_in_range fuel mv e g = Done (st, e', g') ->
             st = WIN /\ lv_food e' = 0).
  { intros H1 fuel st e' g' H. unfold move in H.
    destruct (step_eating_outcome _ _ _ _ _ _ _ _ _ Hs Hin Hocc Hfood H)
      as (c & _ & [(-> & Hz & ->)|(-> & Hnz & ->)]); cbn [lv_food].
    - auto.
    - rewrite H1 in Hnz. vm_compute in Hnz. congruence. }
  assert (Hmore : 1 < lv_food e -> forall fuel st e' g',
             move rand_in_range fuel mv e g = Done (st, e', g') ->
             st = NONE /\ lv_food e' = lv_food e - 1).
  { intros H1 fuel st e' g' H. unfold move in H.
    assert (Hsmall : to_U (lv_food e - 1) = lv_food e - 1)
      by (unfold to_U; apply Z.mod_small; unfold is_U in Hlv; lia).
    destruct (step_eating_outcome _ _ _ _ _ _ _ _ _ Hs Hin Hocc Hfood H)
      as (c & _ & [(-> & Hz & ->)|(-> & Hnz & ->)]); cbn [lv_food].
    - lia.
    - auto. }
  split; intros H1;
    (split; [first [exact (Hone H1) | exact (Hmore H1)]|]); intros Hdraw;
    destruct (step_eating_returns _ _ _ _ _ Hs Hin Hocc Hfood Hdraw)
      as (fuel & st & e' & g' & H).
  - destruct (Hone H1 fuel st e' g' H) as [-> Hz]. eauto.
  - destruct (Hmore H1 fuel st e' g' H) as [-> Hz]. eauto.
Qed.

End Food.

(** ** The render passes *)

(** A loop keeps what its body keeps. *)
Lemma for_loop_inv {St : Type} (I : Z -> St -> Prop) (body : Z -> St -> outcome St)
    (n : nat) (i : Z) (s : St) :
  I i s ->
  (forall j t, i <= j < i + Z.of_nat n -> I j t ->
     exists t', body j t = Done t' /\ I (j + 1) t') ->
  exists s', for_loop n i body s = Done s' /\ I (i + Z.of_nat n) s'.
Proof.
  revert i s. induction n as [|n IH]; intros i s Hi Hbody.
  - exists s. split; [reflexivity|]. replace (i + Z.of_nat 0) with i by lia. exact Hi.
  - destruct (Hbody i s ltac:(lia) Hi) as (t & Hb & Ht).
    destruct (IH (i + 1) t Ht) as (s' & Hl & Hs').
    { intros j u Hj. apply Hbody. lia. }
    exists s'. split.
    + cbn [for_loop]. rewrite Hb. exact Hl.
    + replace (i + Z.of_nat (S n)) with (i + 1 + Z.of_nat n) by lia. exact Hs'.
Qed.

Lemma LENGTH_rows (X Y : Z) : LENGTH X Y = (X + 2) * (2 * Y + 5).
Proof. unfold LENGTH. rewrite Z.shiftl_mul_pow2 by lia. ring. Qed.

Lemma slot_div_mod (e : SEngine) (i : nat) (q c : Z) :
  0 <= c < row_width e ->
  Z.of_nat i = q * row_width e + c ->
  Z.of_nat i / row_width e = q /\ Z.of_nat i mod row_width e = c.
Proof.
  intros Hc Hi. rewrite Hi. split.
  - rewrite Z.div_add_l by lia. rewrite Z.div_small by lia. lia.
  - rewrite Z.add_comm, Z.mod_add by lia. apply Z.mod_small. lia.
Qed.

(** Slots of the top and bottom lines are border slots. *)
Lemma interior_outer_row (e : SEngine) (i : nat) (q c : Z) :
  0 <= c < row_width e -> q < 1 \/ xsz e < q ->
  Z.of_nat i = q * row_width e + c ->
  interior e i = false.
Proof.
  intros Hc Hq Hi. destruct (slot_div_mod e i q c Hc Hi) as [Hd Hm].
  unfold interior. rewrite Hd.
  destruct Hq; [replace (1 <=? q) with false by (symmetry; apply Z.leb_gt; lia)
               |replace (q <=? xsz e) with false by (symmetry; apply Z.leb_gt; lia)];
    rewrite ?andb_false_r; reflexivity.
Qed.

(** On the lines between, the cells lie behind the two border slots. *)
Lemma interior_inner_row (e : SEngine) (i : nat) (x c : Z) :
  0 <= c < row_width e -> 0 <= x < xsz e ->
  Z.of_nat i = (x + 1) * row_width e + c ->
  interior e i = (2 <=? c) && (c <? 2 * ysz e + 2).
Proof.
  intros Hc Hx Hi. destruct (slot_div_mod e i (x + 1) c Hc Hi) as [Hd Hm].
  unfold interior. rewrite Hd, Hm.
  replace (1 <=? x + 1) with true by (symmetry; apply Z.leb_le; lia).
  replace (x + 1 <=? xsz e) with true by (symmetry; apply Z.leb_le; lia).
  reflexivity.
Qed.

Lemma glyph_at_cell (e : SEngine) (i : nat) (x y : Z) :
  0 <= y < ysz e ->
  Z.of_nat i = (x + 1) * row_width e + 2 + 2 * y ->
  glyph_at e i = fst (cell_glyphs e (Cell.mk x y)) /\
  glyph_at e (S i) = snd (cell_glyphs e (Cell.mk x y)).
Proof.
  intros Hy Hi.
  destruct (slot_div_mod e i (x + 1) (2 + 2 * y)) as [Hd Hm];
    [unfold row_width; lia | lia |].
  destruct (slot_div_mod e (S i) (x + 1) (3 + 2 * y)) as [Hd' Hm'];
    [unfold row_width; lia | lia |].
  unfold glyph_at, cell_of_slot. rewrite Hd, Hm, Hd', Hm'.
  replace (x + 1 - 1) with x by lia.
  replace ((2 + 2 * y - 2) / 2) with y by (Z.div_mod_to_equations; lia).
  replace ((3 + 2 * y - 2) / 2) with y by (Z.div_mod_to_equations; lia).
  replace (Z.even (2 + 2 * y)) with true
    by (replace (2 + 2 * y) with (2 * (1 + y)) by lia; symmetry; rewrite Z.even_mul; reflexivity).
  replace (Z.even (3 + 2 * y)) with false
    by (replace (3 + 2 * y) with (2 * (1 + y) + 1) by lia; symmetry; rewrite Z.even_add, Z.even_mul; reflexivity).
  split; reflexivity.
Qed.

Lemma put_in_range (c : Z) (k : nat) (b : list wslot) :
  (k < List.length b)%nat -> put c (k, b) = Done (S k, <[k := wch c]> b).
Proof. intros H. unfold put. destruct (decide (k < List.length b)%nat); [reflexivity | contradiction]. Qed.

Lemma filled_start (P : nat -> bool) (v : nat -> Z) (b0 : list wslot) :
  filled P v b0 b0 0.
Proof.
  split; [reflexivity|]. intros i.
  replace (i <? 0)%nat with false by (symmetry; apply Nat.ltb_ge; lia).
  rewrite andb_false_r. reflexivity.
Qed.

Lemma filled_put (P : nat -> bool) (v : nat -> Z) (b0 b : list wslot) (k : nat) (c : Z) :
  filled P v b0 b k -> (k < List.length b0)%nat -> P k = true -> v k = c ->
  exists b', put c (k, b) = Done (S k, b') /\ filled P v b0 b' (S k).
Proof.
  intros [Hlen Hb] Hk HP Hv. exists (<[k := wch c]> b). split.
  - apply put_in_range. lia.
  - split; [rewrite length_insert; exact Hlen|]. intros i.
    destruct (Nat.eq_dec i k) as [->|Hne].
    + rewrite list_lookup_insert_eq by lia. rewrite HP, Hv.
      replace (k <? S k)%nat with true by (symmetry; apply Nat.ltb_lt; lia).
      reflexivity.
    + rewrite list_lookup_insert_ne by congruence. rewrite Hb.
      replace (i <? S k)%nat with (i <? k)%nat; [reflexivity|].
      destruct (Nat.ltb_spec i k), (Nat.ltb_spec i (S k)); try reflexivity; lia.
Qed.

Lemma filled_skip (P : nat -> bool) (v : nat -> Z) (b0 b : list wslot) (k n : nat) :
  filled P v b0 b k ->
  (forall i, (k <= i < k + n)%nat -> P i = false) ->
  filled P v b0 b (k + n).
Proof.
  intros [Hlen Hb] Hskip. split; [exact Hlen|]. intros i. rewrite Hb.
  destruct (Nat.ltb_spec i k), (Nat.ltb_spec i (k + n)); try reflexivity; try lia.
  rewrite (Hskip i) by lia. reflexivity.
Qed.

Lemma filled_put2 (P : nat -> bool) (v : nat -> Z) (b0 b : list wslot) (k : nat) (c1 c2 : Z) :
  filled P v b0 b k -> (S k < List.length b0)%nat ->
  P k = true -> P (S k) = true -> v k = c1 -> v (S k) = c2 ->
  exists b', (call s <~ put c1 (k, b) in put c2 s) = Done (S (S k), b')
             /\ filled P v b0 b' (S (S k)).
Proof.
  intros Hf Hk HP1 HP2 Hv1 Hv2.
  destruct (filled_put P v b0 b k c1 Hf ltac:(lia) HP1 Hv1) as (b1 & E1 & F1).
  destruct (filled_put P v b0 b1 (S k) c2 F1 Hk HP2 Hv2) as (b2 & E2 & F2).
  exists b2. rewrite E1. cbn [obind]. auto.
Qed.

(** *** The incremental pass *)

(** The four branches of [draw_cell] put the glyph pair of the cell. *)
Lemma draw_cell_glyphs (e : SEngine) (x y : Z) (s : canvas) :
  snake e <> [] -> 0 <= x < 256 -> 0 <= y < 256 ->
  draw_cell e x y s =
  (let s1 := if y =? 0 then skip 2 s else s in
   call s2 <~ (call t <~ put (fst (cell_glyphs e (Cell.mk x y))) s1 in
               put (snd (cell_glyphs e (Cell.mk x y))) t) in
   Done (if y =? ysz e - 1 then skip 3 s2 else s2)).
Proof.
  intros Hs Hx Hy. destruct (snake e) as [|hd tl] eqn:Hsn; [congruence|].
  unfold draw_cell, cell_glyphs, find. rewrite Hsn. cbn [front obind find_in].
  unfold to_U. rewrite !Z.mod_small by lia.
  destruct (Cell.eqb hd (Cell.mk x y)); [reflexivity|].
  destruct (find_in tl (Cell.mk x y)); [reflexivity|].
  destruct (Cell.eqb (Cell.mk x y) (food e)); reflexivity.
Qed.

(** One line of cells: the cursor goes from the start of line [x + 1] to
    the start of the next line and the cells between are painted. *)
Lemma draw_row_paints (e : SEngine) (b0 b : list wslot) (k : nat) (x : Z) :
  snake e <> [] -> 0 <= xsz e < 256 -> 1 <= ysz e < 256 ->
  List.length b0 = Z.to_nat (LENGTH (xsz e) (ysz e) + 1) ->
  0 <= x < xsz e ->
  filled (interior e) (glyph_at e) b0 b k ->
  Z.of_nat k = (x + 1) * row_width e ->
  exists k' b',
    for_loop (Z.to_nat (ysz e)) 0 (fun y => draw_cell e x y) (k, b) = Done (k', b')
    /\ filled (interior e) (glyph_at e) b0 b' k'
    /\ Z.of_nat k' = (x + 1 + 1) * row_width e.
Proof.
  intros Hs Hxs Hys Hlen Hx Hf Hk.
  rewrite LENGTH_rows in Hlen.
  assert (HW : row_width e = 2 * ysz e + 5) by reflexivity.
  assert (Hrow : (x + 1) * row_width e + row_width e <= (xsz e + 1) * row_width e) by nia.
  assert (HN : Z.of_nat (List.length b0) = (xsz e + 1) * row_width e + row_width e + 1) by nia.
  set (base := (x + 1) * row_width e) in *.
  destruct (for_loop_inv
    (fun y (s : canvas) =>
       filled (interior e) (glyph_at e) b0 (snd s) (fst s) /\
       Z.of_nat (fst s) = base + (if y =? 0 then 0 else 2 + 2 * y)
                          + (if y =? ysz e then 3 else 0))
    (fun y => draw_cell e x y) (Z.to_nat (ysz e)) 0 (k, b)) as ([k' b'] & Hloop & Hf' & Hk').
  - cbn [fst snd]. split; [exact Hf|].
    replace (0 =? ysz e) with false by (symmetry; apply Z.eqb_neq; lia).
    rewrite Z.eqb_refl. lia.
  - intros y [k1 b1] Hy [Hf1 Hk1]. cbn [fst snd] in Hf1, Hk1.
    replace (y =? ysz e) with false in Hk1 by (symmetry; apply Z.eqb_neq; lia).
    rewrite (draw_cell_glyphs e x y (k1, b1) Hs) by lia. cbv zeta.
    (* the cursor on the first slot of the cell *)
    assert (exists k2, (if y =? 0 then skip 2 (k1, b1) else (k1, b1)) = (k2, b1)
                       /\ filled (interior e) (glyph_at e) b0 b1 k2
                       /\ Z.of_nat k2 = base + 2 + 2 * y) as (k2 & -> & Hf2 & Hk2).
    { destruct (Z.eqb_spec y 0) as [->|Hy0].
      - exists (k1 + 2)%nat. split; [reflexivity|]. split; [|lia].
        apply filled_skip; [exact Hf1|]. intros i Hi.
        rewrite (interior_inner_row e i x (Z.of_nat i - base)) by (fold base; lia).
        replace (2 <=? Z.of_nat i - base) with false by (symmetry; apply Z.leb_gt; lia).
        reflexivity.
      - exists k1. split; [reflexivity|]. split; [exact Hf1 | lia]. }
    destruct (glyph_at_cell e k2 x y ltac:(lia) ltac:(fold base; lia)) as [Hg1 Hg2].
    assert (Hroom : (S k2 < List.length b0)%nat) by lia.
    assert (Hi1 : interior e k2 = true).
    { rewrite (interior_inner_row e k2 x (2 + 2 * y)) by (fold base; lia).
      apply andb_true_intro. split; [apply Z.leb_le | apply Z.ltb_lt]; lia. }
    assert (Hi2 : interior e (S k2) = true).
    { rewrite (interior_inner_row e (S k2) x (3 + 2 * y)) by (fold base; lia).
      apply andb_true_intro. split; [apply Z.leb_le | apply Z.ltb_lt]; lia. }
    destruct (filled_put2 _ _ b0 b1 k2 _ _ Hf2 Hroom Hi1 Hi2 Hg1 Hg2)
      as (b3 & -> & Hf3).
    cbn [obind].
    destruct (Z.eqb_spec y (ysz e - 1)) as [Hlast|Hnot].
    + eexists. split; [reflexivity|]. cbn [skip fst snd]. split.
      * apply filled_skip; [exact Hf3|]. intros i Hi.
        rewrite (interior_inner_row e i x (Z.of_nat i - base)) by (fold base; lia).
        replace (Z.of_nat i - base <? 2 * ysz e + 2) with false
          by (symmetry; apply Z.ltb_ge; lia).
        apply andb_false_r.
      * replace (y + 1 =? 0) with false by (symmetry; apply Z.eqb_neq; lia).
        replace (y + 1 =? ysz e) with true by (symmetry; apply Z.eqb_eq; lia).
        lia.
    + eexists. split; [reflexivity|]. cbn [fst snd]. split; [exact Hf3|].
      replace (y + 1 =? 0) with false by (symmetry; apply Z.eqb_neq; lia).
      replace (y + 1 =? ysz e) with false by (symmetry; apply Z.eqb_neq; lia).
      lia.
  - exists k', b'. cbn [fst snd] in Hf', Hk'. split; [exact Hloop|]. split; [exact Hf'|].
    rewrite Z2Nat.id in Hk' by lia.
    replace (0 + ysz e =? 0) with false in Hk' by (symmetry; apply Z.eqb_neq; lia).
    replace (0 + ysz e =? ysz e) with true in Hk' by (symmetry; apply Z.eqb_eq; lia).
    subst base. lia.
Qed.

Lemma interior_below (e : SEngine) (i : nat) :
  0 <= ysz e -> interior e i = true ->
  Z.of_nat i < (xsz e + 1) * row_width e.
Proof.
  intros Hy H. unfold interior in H.
  apply andb_prop in H as [H _]. apply andb_prop in H as [H _].
  apply andb_prop in H as [_ H]. apply Z.leb_le in H.
  assert (HW : 0 < row_width e) by (unfold row_width; lia).
  pose proof (Z.div_mod (Z.of_nat i) (row_width e) ltac:(lia)) as Hdm.
  pose proof (Z.mod_pos_bound (Z.of_nat i) (row_width e) HW) as Hm.
  nia.
Qed.

Lemma draw_cells_paints (e : SEngine) (b0 : list wslot) :
  snake e <> [] -> 0 <= xsz e < 256 -> 1 <= ysz e < 256 ->
  List.length b0 = Z.to_nat (LENGTH (xsz e) (ysz e) + 1) ->
  exists k b,
    draw_cells e (Z.to_nat (Z.shiftl (ysz e + 1) 1 + 3), b0) = Done (k, b)
    /\ filled (interior e) (glyph_at e) b0 b k
    /\ Z.of_nat k = (xsz e + 1) * row_width e.
Proof.
  intros Hs Hxs Hys Hlen.
  assert (HW : row_width e = 2 * ysz e + 5) by reflexivity.
  assert (Hk0 : Z.of_nat (Z.to_nat (Z.shiftl (ysz e + 1) 1 + 3)) = (0 + 1) * row_width e)
    by (rewrite Z.shiftl_mul_pow2 by lia; lia).
  unfold draw_cells.
  generalize dependent (Z.to_nat (Z.shiftl (ysz e + 1) 1 + 3)). intros k0 Hk0.
  destruct (for_loop_inv
    (fun x (s : canvas) =>
       filled (interior e) (glyph_at e) b0 (snd s) (fst s) /\
       Z.of_nat (fst s) = (x + 1) * row_width e)
    (fun x => for_loop (Z.to_nat (ysz e)) 0 (fun y => draw_cell e x y))
    (Z.to_nat (xsz e)) 0 (k0, b0))
    as ([k b] & Hloop & Hf & Hk).
  - cbn [fst snd]. split; [|exact Hk0].
    apply (filled_skip _ _ b0 b0 0 k0 (filled_start _ _ b0)).
    intros i Hi. apply (interior_outer_row e i 0 (Z.of_nat i)); lia.
  - intros x [k1 b1] Hx [Hf1 Hk1]. cbn [fst snd] in Hf1, Hk1.
    destruct (draw_row_paints e b0 b1 k1 x Hs Hxs Hys Hlen ltac:(lia) Hf1 Hk1)
      as (k2 & b2 & Hrow & Hf2 & Hk2).
    exists (k2, b2). auto.
  - exists k, b. cbn [fst snd] in Hf, Hk. rewrite Z2Nat.id in Hk by lia.
    split; [exact Hloop|]. split; [exact Hf|]. rewrite Hk. f_equal.
Qed.

Lemma glyph_at_not_nul (e : SEngine) (i : nat) : glyph_at e i <> NUL.
Proof.
  unfold glyph_at, cell_glyphs.
  destruct (Z.even _), (find e (cell_of_slot e i)),
    (Cell.eqb (cell_of_slot e i) (food e)); cbn; discriminate.
Qed.

Lemma border_at_not_nul (e : SEngine) (i : nat) : border_at e i <> NUL.
Proof. unfold border_at. destruct (_ =? _); discriminate. Qed.

(** [to_wstr()] on a constructed engine returns; the buffer it leaves shows
    every cell of the engine, keeps the border and the terminator, and holds
    a text of [LENGTH] characters. *)
Lemma to_wstr_paints (e : SEngine) :
  ready e ->
  exists b,
    to_wstr false e = Done (set_buffer e b)
    /\ shows e b
    /\ framed e b
    /\ text_length b (Z.to_nat (LENGTH (xsz e) (ysz e))).
Proof.
  intros (Hs & Hxs & Hys & Hlen & Hfr).
  destruct Hfr as (Hsize & Hnul & Hborder).
  destruct (draw_cells_paints e (buffer e) Hs ltac:(lia) ltac:(lia) Hsize)
    as (k & b & Hdraw & [Hblen Hb] & Hk).
  assert (HW : row_width e = 2 * ysz e + 5) by reflexivity.
  assert (HL : LENGTH (xsz e) (ysz e) = (xsz e + 1) * row_width e + row_width e)
    by (rewrite LENGTH_rows; lia).
  assert (Hin : forall i, interior e i = true -> b !! i = Some (wch (glyph_at e i))).
  { intros i Hi. rewrite Hb, Hi.
    pose proof (interior_below e i ltac:(lia) Hi).
    replace (i <? k)%nat with true by (symmetry; apply Nat.ltb_lt; lia).
    reflexivity. }
  assert (Hout : forall i, interior e i = false -> b !! i = buffer e !! i).
  { intros i Hi. rewrite Hb, Hi. reflexivity. }
  exists b. split; [|split; [|split]].
  - unfold to_wstr. rewrite Hdraw. reflexivity.
  - intros x y Hx Hy.
    assert (Hidx : Z.of_nat (cell_index e x y) = (x + 1) * row_width e + 2 + 2 * y)
      by (unfold cell_index; nia).
    destruct (glyph_at_cell e (cell_index e x y) x y Hy Hidx) as [<- <-].
    split; apply Hin.
    + rewrite (interior_inner_row e _ x (2 + 2 * y)) by lia.
      apply andb_true_intro. split; [apply Z.leb_le | apply Z.ltb_lt]; lia.
    + rewrite (interior_inner_row e _ x (3 + 2 * y)) by lia.
      apply andb_true_intro. split; [apply Z.leb_le | apply Z.ltb_lt]; lia.
  - split; [lia|]. split.
    + rewrite Hout; [exact Hnul|].
      apply (interior_outer_row e _ (xsz e + 2) 0); lia.
    + intros i Hi Hni. rewrite (Hout i Hni). apply Hborder; assumption.
  - split.
    + rewrite Hout; [exact Hnul|].
      apply (interior_outer_row e _ (xsz e + 2) 0); lia.
    + intros i Hi. destruct (interior e i) eqn:Hint.
      * exists (glyph_at e i). split; [apply Hin; exact Hint | apply glyph_at_not_nul].
      * exists (border_at e i). split; [|apply border_at_not_nul].
        rewrite (Hout i Hint). apply Hborder; assumption.
Qed.

(** *** The first pass *)

Lemma border_at_row (e : SEngine) (i : nat) (q c : Z) :
  0 <= c < row_width e ->
  Z.of_nat i = q * row_width e + c ->
  border_at e i = if c =? row_width e - 1 then NEWLINE else SHADE.
Proof.
  intros Hc Hi. destruct (slot_div_mod e i q c Hc Hi) as [_ Hm].
  unfold border_at. rewrite Hm. reflexivity.
Qed.

(** A border slot takes its character. *)
Lemma border_put (e : SEngine) (b0 b : list wslot) (k : nat) (q c ch : Z) :
  filled (fun i => negb (interior e i)) (border_at e) b0 b k ->
  (k < List.length b0)%nat ->
  0 <= c < row_width e -> Z.of_nat k = q * row_width e + c ->
  interior e k = false ->
  ch = (if c =? row_width e - 1 then NEWLINE else SHADE) ->
  exists b', put ch (k, b) = Done (S k, b')
             /\ filled (fun i => negb (interior e i)) (border_at e) b0 b' (S k).
Proof.
  intros Hf Hk Hc Hq Hint ->.
  apply (filled_put _ _ b0 b k _ Hf Hk).
  - rewrite Hint. reflexivity.
  - apply (border_at_row e k q c Hc Hq).
Qed.

(** The top or the bottom line. *)
Lemma draw_border_row_frames (e : SEngine) (b0 b : list wslot) (k : nat) (q : Z) :
  0 <= xsz e -> 0 <= ysz e ->
  q = 0 \/ q = xsz e + 1 ->
  (Z.of_nat (List.length b0) > (q + 1) * row_width e) ->
  filled (fun i => negb (interior e i)) (border_at e) b0 b k ->
  Z.of_nat k = q * row_width e ->
  exists k' b',
    draw_border_row e (k, b) = Done (k', b')
    /\ filled (fun i => negb (interior e i)) (border_at e) b0 b' k'
    /\ Z.of_nat k' = (q + 1) * row_width e.
Proof.
  intros Hxs Hys Hq Hroom Hf Hk.
  assert (HW : row_width e = 2 * ysz e + 5) by reflexivity.
  assert (Hout : forall i c, 0 <= c < row_width e ->
            Z.of_nat i = q * row_width e + c -> interior e i = false).
  { intros i c Hc Hi. apply (interior_outer_row e i q c Hc); [lia | exact Hi]. }
  set (base := q * row_width e) in *.
  assert (Hend : (q + 1) * row_width e = base + row_width e) by (subst base; lia).
  unfold draw_border_row.
  destruct (for_loop_inv
    (fun y (s : canvas) =>
       filled (fun i => negb (interior e i)) (border_at e) b0 (snd s) (fst s) /\
       Z.of_nat (fst s) = base + 2 * y)
    (fun _ s => call s <~ put SHADE s in put SHADE s)
    (Z.to_nat (ysz e + 1)) 0 (k, b)) as ([k1 b1] & -> & Hf1 & Hk1).
  - cbn [fst snd]. split; [exact Hf | lia].
  - intros y [k2 b2] Hy [Hf2 Hk2]. cbn [fst snd] in Hf2, Hk2.
    destruct (border_put e b0 b2 k2 q (2 * y) SHADE Hf2) as (b3 & -> & Hf3);
      [lia | lia | fold base; lia | apply (Hout k2 (2 * y)); lia
      | replace (2 * y =? row_width e - 1) with false
          by (symmetry; apply Z.eqb_neq; lia); reflexivity |].
    destruct (border_put e b0 b3 (S k2) q (2 * y + 1) SHADE Hf3) as (b4 & E4 & Hf4);
      [lia | lia | fold base; lia | apply (Hout (S k2) (2 * y + 1)); lia
      | replace (2 * y + 1 =? row_width e - 1) with false
          by (symmetry; apply Z.eqb_neq; lia); reflexivity |].
    exists (S (S k2), b4). cbn [obind fst snd]. split; [exact E4|].
    split; [exact Hf4 | lia].
  - cbn [fst snd] in Hf1, Hk1. cbn [obind]. rewrite Z2Nat.id in Hk1 by lia.
    destruct (border_put e b0 b1 k1 q (2 * ysz e + 2) SHADE Hf1) as (b2 & -> & Hf2);
      [lia | lia | fold base; lia | apply (Hout k1 (2 * ysz e + 2)); lia
      | replace (2 * ysz e + 2 =? row_width e - 1) with false
          by (symmetry; apply Z.eqb_neq; lia); reflexivity |].
    cbn [obind].
    destruct (border_put e b0 b2 (S k1) q (2 * ysz e + 3) SHADE Hf2) as (b3 & -> & Hf3);
      [lia | lia | fold base; lia | apply (Hout (S k1) (2 * ysz e + 3)); lia
      | replace (2 * ysz e + 3 =? row_width e - 1) with false
          by (symmetry; apply Z.eqb_neq; lia); reflexivity |].
    cbn [obind].
    destruct (border_put e b0 b3 (S (S k1)) q (2 * ysz e + 4) NEWLINE Hf3) as (b4 & -> & Hf4);
      [lia | lia | fold base; lia | apply (Hout (S (S k1)) (2 * ysz e + 4)); lia
      | replace (2 * ysz e + 4 =? row_width e - 1) with true
          by (symmetry; apply Z.eqb_eq; lia); reflexivity |].
    exists (S (S (S k1))), b4. split; [reflexivity|]. split; [exact Hf4 | lia].
Qed.

(** One line between: its four border slots and the newline are written,
    the cells are stepped over. *)
Lemma draw_frame_row_frames (e : SEngine) (b0 b : list wslot) (k : nat) (x : Z) :
  0 <= xsz e -> 1 <= ysz e ->
  Z.of_nat (List.length b0) > (xsz e + 1) * row_width e ->
  0 <= x < xsz e ->
  filled (fun i => negb (interior e i)) (border_at e) b0 b k ->
  Z.of_nat k = (x + 1) * row_width e ->
  exists k' b',
    for_loop (Z.to_nat (ysz e)) 0 (fun y => draw_frame_cell e x y) (k, b) = Done (k', b')
    /\ filled (fun i => negb (interior e i)) (border_at e) b0 b' k'
    /\ Z.of_nat k' = (x + 1 + 1) * row_width e.
Proof.
  intros Hxs Hys Hroom Hx Hf Hk.
  assert (HW : row_width e = 2 * ysz e + 5) by reflexivity.
  assert (Hrow : (x + 1) * row_width e + row_width e <= (xsz e + 1) * row_width e) by nia.
  assert (Hint : forall i c, 0 <= c < row_width e ->
            Z.of_nat i = (x + 1) * row_width e + c ->
            interior e i = (2 <=? c) && (c <? 2 * ysz e + 2)).
  { intros i c Hc Hi. apply (interior_inner_row e i x c Hc Hx Hi). }
  set (base := (x + 1) * row_width e) in *.
  destruct (for_loop_inv
    (fun y (s : canvas) =>
       filled (fun i => negb (interior e i)) (border_at e) b0 (snd s) (fst s) /\
       Z.of_nat (fst s) = base + (if y =? 0 then 0 else 2 + 2 * y)
                          + (if y =? ysz e then 3 else 0))
    (fun y => draw_frame_cell e x y) (Z.to_nat (ysz e)) 0 (k, b))
    as ([k' b'] & Hloop & Hf' & Hk').
  - cbn [fst snd]. split; [exact Hf|].
    replace (0 =? ysz e) with false by (symmetry; apply Z.eqb_neq; lia).
    rewrite Z.eqb_refl. lia.
  - intros y [k1 b1] Hy [Hf1 Hk1]. cbn [fst snd] in Hf1, Hk1.
    replace (y =? ysz e) with false in Hk1 by (symmetry; apply Z.eqb_neq; lia).
    unfold draw_frame_cell.
    (* the left border, on the first cell of the line *)
    assert (exists k2 b2,
               (if y =? 0 then call s <~ put SHADE (k1, b1) in put SHADE s
                else @Done canvas (k1, b1)) = Done (k2, b2)
               /\ filled (fun i => negb (interior e i)) (border_at e) b0 b2 k2
               /\ Z.of_nat k2 = base + 2 + 2 * y) as (k2 & b2 & -> & Hf2 & Hk2).
    { destruct (Z.eqb_spec y 0) as [->|Hy0].
      - destruct (border_put e b0 b1 k1 (x + 1) 0 SHADE Hf1) as (b2 & -> & Hf2);
          [lia | lia | fold base; lia
          | rewrite (Hint k1 0) by lia; reflexivity
          | replace (0 =? row_width e - 1) with false
              by (symmetry; apply Z.eqb_neq; lia); reflexivity |].
        destruct (border_put e b0 b2 (S k1) (x + 1) 1 SHADE Hf2) as (b3 & E3 & Hf3);
          [lia | lia | fold base; lia
          | rewrite (Hint (S k1) 1) by lia; reflexivity
          | replace (1 =? row_width e - 1) with false
              by (symmetry; apply Z.eqb_neq; lia); reflexivity |].
        exists (S (S k1)), b3. cbn [obind]. split; [exact E3|]. split; [exact Hf3 | lia].
      - exists k1, b1. split; [reflexivity|]. split; [exact Hf1 | lia]. }
    cbn [obind]. unfold skip. cbn [fst snd].
    (* the two slots of the cell *)
    assert (Hf3 : filled (fun i => negb (interior e i)) (border_at e) b0 b2 (k2 + 2)).
    { apply filled_skip; [exact Hf2|]. intros i Hi.
      rewrite (Hint i (Z.of_nat i - base)) by lia.
      replace (2 <=? Z.of_nat i - base) with true by (symmetry; apply Z.leb_le; lia).
      replace (Z.of_nat i - base <? 2 * ysz e + 2) with true
        by (symmetry; apply Z.ltb_lt; lia).
      reflexivity. }
    destruct (Z.eqb_spec y (ysz e - 1)) as [Hlast|Hnot].
    + destruct (border_put e b0 b2 (k2 + 2) (x + 1) (2 * ysz e + 2) SHADE Hf3)
        as (b4 & -> & Hf4);
        [lia | lia | fold base; lia
        | rewrite (Hint (k2 + 2)%nat (2 * ysz e + 2)) by lia;
          replace (2 * ysz e + 2 <? 2 * ysz e + 2) with false
            by (symmetry; apply Z.ltb_ge; lia); apply andb_false_r
        | replace (2 * ysz e + 2 =? row_width e - 1) with false
            by (symmetry; apply Z.eqb_neq; lia); reflexivity |].
      cbn [obind].
      destruct (border_put e b0 b4 (S (k2 + 2)) (x + 1) (2 * ysz e + 3) SHADE Hf4)
        as (b5 & -> & Hf5);
        [lia | lia | fold base; lia
        | rewrite (Hint (S (k2 + 2)) (2 * ysz e + 3)) by lia;
          replace (2 * ysz e + 3 <? 2 * ysz e + 2) with false
            by (symmetry; apply Z.ltb_ge; lia); apply andb_false_r
        | replace (2 * ysz e + 3 =? row_width e - 1) with false
            by (symmetry; apply Z.eqb_neq; lia); reflexivity |].
      cbn [obind].
      destruct (border_put e b0 b5 (S (S (k2 + 2))) (x + 1) (2 * ysz e + 4) NEWLINE Hf5)
        as (b6 & E6 & Hf6);
        [lia | lia | fold base; lia
        | rewrite (Hint (S (S (k2 + 2))) (2 * ysz e + 4)) by lia;
          replace (2 * ysz e + 4 <? 2 * ysz e + 2) with false
            by (symmetry; apply Z.ltb_ge; lia); apply andb_false_r
        | replace (2 * ysz e + 4 =? row_width e - 1) with true
            by (symmetry; apply Z.eqb_eq; lia); reflexivity |].
      eexists. split; [exact E6|]. cbn [fst snd]. split; [exact Hf6|].
      replace (y + 1 =? 0) with false by (symmetry; apply Z.eqb_neq; lia).
      replace (y + 1 =? ysz e) with true by (symmetry; apply Z.eqb_eq; lia).
      lia.
    + eexists. split; [reflexivity|]. cbn [fst snd]. split; [exact Hf3|].
      replace (y + 1 =? 0) with false by (symmetry; apply Z.eqb_neq; lia).
      replace (y + 1 =? ysz e) with false by (symmetry; apply Z.eqb_neq; lia).
      lia.
  - exists k', b'. cbn [fst snd] in Hf', Hk'. split; [exact Hloop|]. split; [exact Hf'|].
    rewrite Z2Nat.id in Hk' by lia.
    replace (0 + ysz e =? 0) with false in Hk' by (symmetry; apply Z.eqb_neq; lia).
    replace (0 + ysz e =? ysz e) with true in Hk' by (symmetry; apply Z.eqb_eq; lia).
    subst base. lia.
Qed.

(** The three loops of the first pass write every border slot and stop at
    slot [LENGTH]. *)
Lemma frame_pass (e : SEngine) (b0 : list wslot) :
  0 <= xsz e -> 1 <= ysz e ->
  List.length b0 = Z.to_nat (LENGTH (xsz e) (ysz e) + 1) ->
  exists s1 s2 k b,
    draw_border_row e (O, b0) = Done s1
    /\ for_loop (Z.to_nat (xsz e)) 0
         (fun x => for_loop (Z.to_nat (ysz e)) 0 (fun y => draw_frame_cell e x y)) s1
       = Done s2
    /\ draw_border_row e s2 = Done (k, b)
    /\ filled (fun i => negb (interior e i)) (border_at e) b0 b k
    /\ Z.of_nat k = LENGTH (xsz e) (ysz e).
Proof.
  intros Hxs Hys Hlen.
  assert (HW : row_width e = 2 * ysz e + 5) by reflexivity.
  assert (HL : LENGTH (xsz e) (ysz e) = (xsz e + 1) * row_width e + row_width e)
    by (rewrite LENGTH_rows; lia).
  assert (HN : Z.of_nat (List.length b0) = (xsz e + 1) * row_width e + row_width e + 1)
    by nia.
  assert (Hpos : 0 <= xsz e * row_width e) by nia.
  destruct (draw_border_row_frames e b0 b0 0 0 Hxs ltac:(lia) ltac:(auto) ltac:(lia)
              (filled_start _ _ b0) ltac:(lia)) as (k1 & b1 & E1 & Hf1 & Hk1).
  destruct (for_loop_inv
    (fun x (s : canvas) =>
       filled (fun i => negb (interior e i)) (border_at e) b0 (snd s) (fst s) /\
       Z.of_nat (fst s) = (x + 1) * row_width e)
    (fun x => for_loop (Z.to_nat (ysz e)) 0 (fun y => draw_frame_cell e x y))
    (Z.to_nat (xsz e)) 0 (k1, b1)) as ([k2 b2] & E2 & Hf2 & Hk2).
  - cbn [fst snd]. auto.
  - intros x [k b] Hx [Hf Hk]. cbn [fst snd] in Hf, Hk.
    destruct (draw_frame_row_frames e b0 b k x Hxs Hys ltac:(lia) ltac:(lia) Hf Hk)
      as (k' & b' & E & Hf' & Hk').
    exists (k', b'). auto.
  - cbn [fst snd] in Hf2, Hk2. rewrite Z2Nat.id in Hk2 by lia.
    destruct (draw_border_row_frames e b0 b2 k2 (xsz e + 1) Hxs ltac:(lia)
                ltac:(auto) ltac:(lia) Hf2 ltac:(lia)) as (k3 & b3 & E3 & Hf3 & Hk3).
    exists (k1, b1), (k2, b2), k3, b3. repeat split; try assumption.
    + apply Hf3.
    + apply Hf3.
    + lia.
Qed.

(** [to_wstr(true)] returns, on any board with a line of cells.  The
    buffer has [LENGTH + 1] slots, the border around the cells and the
    terminator in slot [LENGTH]; the slots of the cells are still as
    [malloc] left them; and the cursor stops at [LENGTH]. *)
Lemma draw_all_frames (e : SEngine) :
  0 <= xsz e -> 1 <= ysz e ->
  exists b,
    draw_all e = Done (mkSEngine (snake e) (xsz e) (ysz e) (lv_food e) (score e)
                                 (food e) (prv_mv e) b (LENGTH (xsz e) (ysz e)))
    /\ framed e b
    /\ (forall i, interior e i = true -> b !! i = Some indeterminate)
    /\ draw_all_cursor e = Done (Z.to_nat (LENGTH (xsz e) (ysz e))).
Proof.
  intros Hxs Hys.
  assert (HW : row_width e = 2 * ysz e + 5) by reflexivity.
  assert (HL : LENGTH (xsz e) (ysz e) = (xsz e + 1) * row_width e + row_width e)
    by (rewrite LENGTH_rows; lia).
  assert (Hpos : 0 <= xsz e * row_width e) by nia.
  set (L := LENGTH (xsz e) (ysz e)) in *.
  set (b0 := replicate (Z.to_nat (L + 1)) indeterminate).
  assert (Hlen : List.length b0 = Z.to_nat (L + 1)) by apply length_replicate.
  destruct (frame_pass e b0 Hxs Hys Hlen) as (s1 & s2 & k & b & E1 & E2 & E3 & [Hbl Hb] & Hk).
  assert (Hkn : k = Z.to_nat L) by lia.
  assert (Hroom : (k < List.length b)%nat) by lia.
  exists (<[k := wch NUL]> b). split; [|split; [|split]].
  - unfold draw_all. fold L. fold b0. rewrite E1. cbn [obind]. rewrite E2. cbn [obind].
    rewrite E3. cbn [obind store].
    destruct (decide (k < List.length b)%nat); [|contradiction]. reflexivity.
  - split; [rewrite length_insert; lia|]. fold L. rewrite <- Hkn. split.
    + apply list_lookup_insert_eq. exact Hroom.
    + intros i Hi Hint. rewrite list_lookup_insert_ne by lia.
      rewrite Hb, Hint.
      replace (i <? k)%nat with true by (symmetry; apply Nat.ltb_lt; lia).
      reflexivity.
  - intros i Hint. pose proof (interior_below e i ltac:(lia) Hint).
    rewrite list_lookup_insert_ne by lia. rewrite Hb, Hint. cbn [negb andb].
    apply lookup_replicate_2. lia.
  - unfold draw_all_cursor. fold L. fold b0. rewrite E1. cbn [obind]. rewrite E2.
    cbn [obind]. rewrite E3. cbn [obind fst]. rewrite Hkn. reflexivity.
Qed.

(** ** Whole games *)

Section Games.

Context {RNG : Type}.
Variable rand_in_range : Z -> Z -> RNG -> Z * RNG.

Implicit Types (e : SEngine) (g : RNG) (mv d : Movement) (hd : Cell.t)
  (tl : list Cell.t) (fuel : nat) (st : GameStatus).

(** What the constructor leaves when it returns. *)
Lemma ctor_inv fuel X Y F SC g e g' :
  SEngine_ctor rand_in_range fuel X Y F SC g = Done (e, g') ->
  9 <= X /\ 9 <= Y /\ 0 < F /\
  exists c b,
    find_in (snake (two_cells X Y F SC)) c = false /\
    e = mkSEngine (snake (two_cells X Y F SC)) X Y F SC c LEFT b (LENGTH X Y) /\
    framed e b /\
    (forall i, interior e i = true -> b !! i = Some indeterminate).
Proof.
  unfold SEngine_ctor. intros H.
  destruct (X <? 9) eqn:HX; [discriminate|].
  destruct (Y <? 9) eqn:HY; [discriminate|]. cbn [orb] in H.
  destruct (F <=? 0) eqn:HF; [discriminate|].
  apply Z.ltb_ge in HX, HY. apply Z.leb_gt in HF.
  destruct (addnewfood rand_in_range fuel (two_cells X Y F SC) g)
    as [[e1 g1]| | |] eqn:A; cbn [obind] in H; try discriminate.
  apply addnewfood_sound in A. destruct A as [He1 Hfree].
  cbn [fst snd] in H. rewrite He1 in H. unfold to_wstr in H.
  match type of H with
  | obind (draw_all ?e0) _ = _ =>
      destruct (draw_all_frames e0) as (b & Hd & Hfr & Hind & _);
        [cbn; lia | cbn; lia | rewrite Hd in H]
  end.
  cbn [obind] in H. injection H as <- <-.
  repeat (split; [assumption|]).
  exists (food e1), b. fields. cbn [two_cells snake] in *. auto.
Qed.

(** The constructor returns once the generator draws a free cell. *)
Lemma ctor_returns X Y F SC g :
  9 <= X -> 9 <= Y -> 0 < F ->
  draws_free_cell rand_in_range (two_cells X Y F SC) (snake (two_cells X Y F SC)) g ->
  exists fuel e g', SEngine_ctor rand_in_range fuel X Y F SC g = Done (e, g').
Proof.
  intros HX HY HF [n Hn].
  destruct (addnewfood_returns rand_in_range n (two_cells X Y F SC) g Hn)
    as (e1 & g1 & A).
  exists (S n). unfold SEngine_ctor.
  replace (X <? 9) with false by (symmetry; apply Z.ltb_ge; lia).
  replace (Y <? 9) with false by (symmetry; apply Z.ltb_ge; lia).
  replace (F <=? 0) with false by (symmetry; apply Z.leb_gt; lia).
  cbn [orb]. rewrite A. cbn [obind fst snd].
  pose proof (addnewfood_sound _ _ _ _ _ _ A) as [He1 _].
  unfold to_wstr.
  match goal with
  | |- context [draw_all ?e0] =>
      destruct (draw_all_frames e0) as (b & -> & _);
        [rewrite He1; cbn; lia | rewrite He1; cbn; lia |]
  end.
  cbn [obind]. eauto.
Qed.

(** A move that returns keeps the board, the buffer and a snake. *)
Lemma move_keeps fuel mv e g st e' g' :
  move rand_in_range fuel mv e g = Done (st, e', g') ->
  snake e' <> [] /\ xsz e' = xsz e /\ ysz e' = ysz e /\
  buffer e' = buffer e /\ length e' = length e.
Proof.
  unfold move. intros H.
  destruct (step_inv _ _ _ _ _ _ _ _ H) as (hd & tl & Hs & Hcases).
  destruct Hcases as [(_ & _ & -> & _)|[(_ & _ & _ & -> & _)
                     |[(_ & _ & _ & _ & -> & _)|(Hin & Hn & Hf & Hocc)]]].
  - rewrite Hs. repeat split; discriminate.
  - cbn. repeat split; discriminate.
  - cbn. repeat split; discriminate.
  - destruct (step_eating_outcome _ _ _ _ _ _ _ _ _ _ Hs Hin Hocc Hf H)
      as (c & _ & [(_ & _ & ->)|(_ & _ & ->)]); cbn; repeat split; discriminate.
Qed.

(** A move that returns keeps the food off the snake. *)
Lemma move_keeps_food_free fuel mv e g st e' g' :
  food_is_free e ->
  move rand_in_range fuel mv e g = Done (st, e', g') ->
  food_is_free e'.
Proof.
  unfold move, food_is_free, find. intros Hfree H.
  destruct (step_inv _ _ _ _ _ _ _ _ H) as (hd & tl & Hs & Hcases).
  rewrite Hs in Hfree. apply find_in_false in Hfree.
  destruct Hcases as [(_ & _ & -> & _)|[(_ & Hin & _ & -> & _)
                     |[(_ & Hn & Hne & _ & -> & _)|(Hin & Hn & Hf & Hocc)]]].
  - rewrite Hs. apply find_in_false. exact Hfree.
  - fields. apply find_in_false. intros [Heq|Hin']; apply Hfree.
    + right. rewrite <- Heq. exact Hin.
    + right. exact Hin'.
  - fields. apply find_in_false.
    intros [Heq|Hin']; [congruence|].
    apply Hfree. apply in_removelast. exact Hin'.
  - destruct (step_eating_outcome _ _ _ _ _ _ _ _ _ _ Hs Hin Hocc Hf H)
      as (c & Hc & [(_ & _ & ->)|(_ & _ & ->)]); cbn [snake food]; exact Hc.
Qed.

Lemma reachable_ready e : reachable rand_in_range e -> ready e.
Proof.
  induction 1 as [fuel X Y F SC g e g' HX HY HF HS Hc
                 | fuel mv e g e' g' Hr IH Hm
                 | e e' Hr IH Hw].
  - destruct (ctor_inv _ _ _ _ _ _ _ _ Hc) as (H9x & H9y & _ & c & b & _ & -> & Hfr & _).
    unfold is_U in *. unfold ready. cbn [snake xsz ysz length buffer two_cells] in *.
    repeat split; try lia; try discriminate; apply Hfr.
  - destruct (move_keeps _ _ _ _ _ _ _ Hm) as (Hs & Hx & Hy & Hb & Hl).
    destruct IH as (_ & IHx & IHy & IHl & IHf).
    unfold ready, framed, interior, border_at, row_width in *.
    rewrite Hx, Hy, Hb, Hl. auto.
  - destruct (to_wstr_paints e IH) as (b & Hw' & _ & Hfr & _).
    rewrite Hw' in Hw. injection Hw as <-.
    destruct IH as (IHs & IHx & IHy & IHl & _).
    unfold ready. cbn [set_buffer snake xsz ysz length buffer]. auto.
Qed.

(** *** Claims about construction, the food and the buffer *)

(** C6 (amended). With a side below 9, or no food to eat, the constructor
    throws and no engine exists.  With any other arguments, every engine
    it returns has the sizes and counters it was given, a snake of exactly
    two cells with the head in the middle of the board,
    [(xsz / 2, ysz / 2)], and the second cell one step to the [RIGHT] of
    the head (same [x], [y + 1]: the next cell on the same line of the
    text), food on neither cell, and [LEFT] as last direction; and it
    returns once the generator draws a cell off the snake. *)
Theorem construction X Y F SC g :
  is_U X -> is_U Y -> is_U F -> is_UU SC ->
  (X < 9 \/ Y < 9 \/ F <= 0 ->
     forall fuel, exists what,
       SEngine_ctor rand_in_range fuel X Y F SC g = Thrown what)
  /\ (9 <= X -> 9 <= Y -> 0 < F ->
      (forall fuel e g',
          SEngine_ctor rand_in_range fuel X Y F SC g = Done (e, g') ->
          snake e = [Cell.mk (X ÷ 2) (Y ÷ 2); Cell.mk (X ÷ 2) (Y ÷ 2 + 1)] /\
          snake e = [Cell.mk (X ÷ 2) (Y ÷ 2); advance (Cell.mk (X ÷ 2) (Y ÷ 2)) RIGHT] /\
          cell_index e (X ÷ 2) (Y ÷ 2 + 1) = S (S (cell_index e (X ÷ 2) (Y ÷ 2))) /\
          food_is_free e /\ prv_mv e = LEFT /\
          xsz e = X /\ ysz e = Y /\ lv_food e = F /\ score e = SC)
      /\ (draws_free_cell rand_in_range (two_cells X Y F SC)
                          (snake (two_cells X Y F SC)) g ->
          exists fuel e g',
            SEngine_ctor rand_in_range fuel X Y F SC g = Done (e, g'))).
Proof.
  unfold is_U, is_UU. intros HX HY HF HS. split.
  - intros Hbad fuel. unfold SEngine_ctor.
    destruct (Z.ltb_spec X 9); [cbn; eauto|].
    destruct (Z.ltb_spec Y 9); [cbn; eauto|]. cbn [orb].
    destruct (Z.leb_spec F 0); [eauto | lia].
  - intros H9x H9y HF0. split.
    + intros fuel e g' Hc.
      destruct (ctor_inv _ _ _ _ _ _ _ _ Hc) as (_ & _ & _ & c & b & Hfree & -> & _).
      assert (Hx2 : to_U (X ÷ 2) = X ÷ 2)
        by (unfold to_U; apply Z.mod_small; rewrite Z.quot_div_nonneg by lia;
            Z.div_mod_to_equations; lia).
      assert (Hy2 : to_U (Y ÷ 2) = Y ÷ 2)
        by (unfold to_U; apply Z.mod_small; rewrite Z.quot_div_nonneg by lia;
            Z.div_mod_to_equations; lia).
      assert (Hy3 : to_U (Y ÷ 2 + 1) = Y ÷ 2 + 1)
        by (unfold to_U; apply Z.mod_small; rewrite Z.quot_div_nonneg by lia;
            Z.div_mod_to_equations; lia).
      assert (Hq : 0 <= X ÷ 2 /\ 0 <= Y ÷ 2)
        by (rewrite !Z.quot_div_nonneg by lia; Z.div_mod_to_equations; lia).
      unfold food_is_free, find, advance, cell_index, row_width.
      cbn [two_cells snake food prv_mv xsz ysz lv_food score Cell.x Cell.y offset fst snd] in *.
      rewrite Hx2, Hy2, Hy3 in *. rewrite Z.add_0_r, Hx2.
      repeat split; try assumption; try reflexivity. nia.
    + apply ctor_returns; assumption.
Qed.

(** C7. The food is on no snake cell in any engine reached from a
    construction through moves that returned [NONE] and through renders;
    a returned constructor establishes this, and every move that returns,
    whatever its status and also when it re-rolls the food, keeps it. *)
Theorem food_never_on_snake :
  (forall e, reachable rand_in_range e -> food_is_free e)
  /\ (forall fuel X Y F SC g e g',
        SEngine_ctor rand_in_range fuel X Y F SC g = Done (e, g') -> food_is_free e)
  /\ (forall fuel mv e g st e' g',
        food_is_free e ->
        move rand_in_range fuel mv e g = Done (st, e', g') -> food_is_free e').
Proof.
  assert (Hctor : forall fuel X Y F SC g e g',
             SEngine_ctor rand_in_range fuel X Y F SC g = Done (e, g') -> food_is_free e).
  { intros fuel X Y F SC g e g' Hc.
    destruct (ctor_inv _ _ _ _ _ _ _ _ Hc) as (_ & _ & _ & c & b & Hfree & -> & _).
    exact Hfree. }
  split; [|split; [exact Hctor | apply move_keeps_food_free]].
  induction 1 as [fuel X Y F SC g e g' HX HY HF HS Hc
                 | fuel mv e g e' g' Hr IH Hm
                 | e e' Hr IH Hw].
  - eapply Hctor; eassumption.
  - eapply move_keeps_food_free; eassumption.
  - destruct (to_wstr_fields _ _ _ Hw) as (Hs & _ & _ & _ & _ & Hf & _).
    unfold food_is_free, find in *. rewrite Hs, Hf. exact IH.
Qed.

(** C8 (amended). On every board of valid size the first pass returns
    with [length] equal to [((xsz+2)*(ysz+2))*2 + xsz + 2], a buffer of
    one slot more, the terminator in the slot right behind, and its cursor
    on that slot.  It has written the border slots only: every slot of a
    cell is still as it was allocated.  Every engine reached from a
    construction has a buffer of that size with the terminator in place,
    and every [to_wstr()] on it returns and leaves such a buffer again,
    now holding a text of exactly [length] characters. *)
Theorem render_size :
  (forall e, 9 <= xsz e < 256 -> 9 <= ysz e < 256 ->
     exists e',
       to_wstr true e = Done e' /\ allocated e' /\
       length e' = ((xsz e + 2) * (ysz e + 2)) * 2 + xsz e + 2 /\
       draw_all_cursor e = Done (Z.to_nat (length e')) /\
       (forall i, (i < Z.to_nat (length e'))%nat ->
          buffer e' !! i = if interior e i then Some indeterminate
                           else Some (wch (border_at e i))))
  /\ (forall e, reachable rand_in_range e ->
        allocated e /\
        exists e',
          to_wstr false e = Done e' /\ allocated e' /\ length e' = length e /\
          text_length (buffer e') (Z.to_nat (length e'))).
Proof.
  split.
  - intros e Hx Hy.
    destruct (draw_all_frames e ltac:(lia) ltac:(lia)) as (b & Hd & Hfr & Hind & Hcur).
    eexists. split; [exact Hd|]. destruct Hfr as (Hl & Hn & Hborder).
    unfold allocated. cbn [length buffer xsz ysz].
    assert (Hform : LENGTH (xsz e) (ysz e) = (xsz e + 2) * (ysz e + 2) * 2 + xsz e + 2)
      by (rewrite LENGTH_rows; ring).
    repeat (split; [solve [auto]|]).
    intros i Hi. destruct (interior e i) eqn:Hint; [apply Hind | apply Hborder]; assumption.
  - intros e Hr. apply reachable_ready in Hr.
    destruct (to_wstr_paints e Hr) as (b & Hw & _ & Hfr & Htext).
    destruct Hr as (_ & _ & _ & Hl & Hfr0).
    destruct Hfr0 as (Hsz0 & Hn0 & _). destruct Hfr as (Hsz & Hn & _).
    split; [unfold allocated; rewrite Hl; auto|].
    exists (set_buffer e b). split; [exact Hw|].
    unfold allocated. cbn [set_buffer length buffer xsz ysz]. rewrite Hl. auto 10.
Qed.

(** C9 (amended). [move] never writes the buffer: when it returns, with
    any status, the buffer is the one of before the call.  The caller's
    next [to_wstr()] returns and leaves a buffer in which every cell holds
    the glyph pair of the engine after the move: blocks on the snake, the
    circle on the food, blanks elsewhere. *)
Theorem buffer_waits_for_to_wstr e :
  reachable rand_in_range e ->
  forall fuel mv g st e' g',
    move rand_in_range fuel mv e g = Done (st, e', g') ->
    buffer e' = buffer e
    /\ exists b, to_wstr false e' = Done (set_buffer e' b) /\ shows e' b.
Proof.
  intros Hr fuel mv g st e' g' Hm. apply reachable_ready in Hr.
  destruct (move_keeps _ _ _ _ _ _ _ Hm) as (Hs & Hx & Hy & Hb & Hl).
  split; [exact Hb|].
  assert (Hr' : ready e').
  { destruct Hr as (_ & IHx & IHy & IHl & IHf).
    unfold ready, framed, interior, border_at, row_width in *.
    rewrite Hx, Hy, Hb, Hl. auto. }
  destruct (to_wstr_paints e' Hr') as (b & Hw & Hshows & _).
  exists b. auto.
Qed.

End Games.

(** ** The properties at work on concrete engines *)

Lemma started_built :
  SEngine_ctor counter_rand 1 9 9 1 0 3%nat = Done (started, 5%nat).
Proof. vm_compute. reflexivity. Defined.

Lemma hungry_built :
  SEngine_ctor counter_rand 1 9 9 3 7 3%nat = Done (hungry, 5%nat).
Proof. vm_compute. reflexivity. Defined.

Lemma rich_built :
  SEngine_ctor counter_rand 1 9 9 2 65535 3%nat = Done (rich, 5%nat).
Proof. vm_compute. reflexivity. Qed.

Lemma started_reachable : reachable counter_rand started.
Proof.
  apply (reach_ctor counter_rand 1 9 9 1 0 3%nat started 5%nat);
    unfold is_U, is_UU; try lia. exact started_built.
Defined.

Lemma hungry_reachable : reachable counter_rand hungry.
Proof.
  apply (reach_ctor counter_rand 1 9 9 3 7 3%nat hungry 5%nat);
    unfold is_U, is_UU; try lia. exact hungry_built.
Defined.

Lemma started_eats : eating_move started UP (Cell.mk 4 4) [Cell.mk 4 5].
Proof.
  unfold eating_move, clean_move, inside. repeat split; vm_compute; congruence.
Defined.

Lemma hungry_eats : eating_move hungry UP (Cell.mk 4 4) [Cell.mk 4 5].
Proof.
  unfold eating_move, clean_move, inside. repeat split; vm_compute; congruence.
Defined.

Lemma rich_eats : eating_move rich UP (Cell.mk 4 4) [Cell.mk 4 5].
Proof.
  unfold eating_move, clean_move, inside. repeat split; vm_compute; congruence.
Qed.

(** Growth at work: on [hungry] the move [UP] eats; the snake has three
    cells afterwards, the score is 8 and two foods remain. *)
Lemma growth_on_food_hungry :
  exists fuel st e' g',
    move counter_rand fuel UP hungry 5%nat = Done (st, e', g')
    /\ snake e' = [Cell.mk 3 4; Cell.mk 4 4; Cell.mk 4 5]
    /\ score e' = 8 /\ lv_food e' = 2 /\ food_is_free e'.
Proof.
  destruct (growth_on_food counter_rand UP hungry 5%nat (Cell.mk 4 4) [Cell.mk 4 5]
              hungry_eats) as [Hpost Hret].
  - unfold is_UU. vm_compute. split; congruence.
  - unfold is_U. vm_compute. split; congruence.
  - destruct Hret as (fuel & st & e' & g' & Hm).
    { exists 0%nat. vm_compute. reflexivity. }
    exists fuel, st, e', g'. split; [exact Hm|].
    destruct (Hpost fuel st e' g' Hm) as (Hs & _ & _ & _ & Hsc & _ & Hlv & Hfree).
    split; [exact Hs|]. split; [apply Hsc; vm_compute; reflexivity|].
    split; [apply Hlv; vm_compute; congruence | exact Hfree].
Defined.

(** The score is not always one more: on [rich], built by
    [SEngine(9, 9, 2, 65535)], the move [UP] eats and returns, and the score
    afterwards is 0, not 65536. *)
Lemma growth_on_food_score_wraps :
  SEngine_ctor counter_rand 1 9 9 2 65535 3%nat = Done (rich, 5%nat)
  /\ eating_move rich UP (Cell.mk 4 4) [Cell.mk 4 5]
  /\ exists e' g',
       move counter_rand 1 UP rich 5%nat = Done (NONE, e', g')
       /\ score rich = 65535 /\ score e' = 0 /\ score e' <> score rich + 1.
Proof.
  split; [exact rich_built|]. split; [exact rich_eats|].
  eexists _, _. split; [vm_compute; reflexivity|].
  repeat split; vm_compute; congruence.
Qed.

(** Leaving the grid: [at_top] asked to go [UP]. *)
Lemma bounds_loss_at_top :
  move counter_rand 0 UP at_top 0%nat = Done (LOST, at_top, 0%nat).
Proof.
  apply (bounds_loss_changes_nothing counter_rand 0 UP at_top 0%nat
           (Cell.mk 0 4) [Cell.mk 1 4]).
  - reflexivity.
  - unfold inside. vm_compute. intros [[H _] _]. apply H. reflexivity.
Defined.

(** The clamp at work: [at_top] heads [UP]; [DOWN] is answered as [UP] is,
    and [LEFT] is applied as it is. *)
Lemma clamp_at_top :
  move counter_rand 0 DOWN at_top 0%nat = move counter_rand 0 UP at_top 0%nat
  /\ applied at_top LEFT = LEFT
  /\ move counter_rand 0 LEFT at_top 0%nat = step counter_rand 0 LEFT at_top 0%nat.
Proof.
  destruct (opposite_request_is_clamped counter_rand 0 at_top 0%nat) as [Hopp Hother].
  split; [exact Hopp|]. apply (Hother LEFT). discriminate.
Defined.

(** A collision: [knotted] turns [LEFT] into the fourth cell of its body. *)
Lemma self_collision_knotted :
  move counter_rand 0 LEFT knotted 0%nat
  = Done (LOST,
          mkSEngine [Cell.mk 4 3; Cell.mk 5 4; Cell.mk 5 3; Cell.mk 4 3; Cell.mk 3 3]
                    9 9 3 2 (Cell.mk 0 0) UP [] 0,
          0%nat).
Proof.
  apply (self_collision_loss counter_rand 0 LEFT knotted 0%nat (Cell.mk 4 4)
           [Cell.mk 5 4; Cell.mk 5 3; Cell.mk 4 3; Cell.mk 3 3]).
  - reflexivity.
  - unfold inside. vm_compute. repeat split; congruence.
  - vm_compute. reflexivity.
Defined.

(** Winning: with one food remaining ([started]) the eating move wins; with
    three remaining ([hungry]) the game goes on. *)
Lemma win_on_last_food_started :
  (exists fuel e' g',
      move counter_rand fuel UP started 5%nat = Done (WIN, e', g') /\ lv_food e' = 0)
  /\ (exists fuel e' g',
      move counter_rand fuel UP hungry 5%nat = Done (NONE, e', g')).
Proof.
  split.
  - destruct (win_on_last_food counter_rand UP started 5%nat (Cell.mk 4 4) [Cell.mk 4 5]
                started_eats) as [Hone _].
    { unfold is_U. vm_compute. split; congruence. }
    destruct (Hone eq_refl) as [_ Hret]. apply Hret.
    exists 0%nat. vm_compute. reflexivity.
  - destruct (win_on_last_food counter_rand UP hungry 5%nat (Cell.mk 4 4) [Cell.mk 4 5]
                hungry_eats) as [_ Hmore].
    { unfold is_U. vm_compute. split; congruence. }
    destruct Hmore as [_ Hret]; [vm_compute; reflexivity|]. apply Hret.
    exists 0%nat. vm_compute. reflexivity.
Defined.

(** Biting the tail: [curled] turns [LEFT] onto its own tail. *)
Lemma tail_cell_loss_curled :
  exists e', move counter_rand 0 LEFT curled 0%nat = Done (LOST, e', 0%nat)
             /\ snake e' = [Cell.mk 4 3; Cell.mk 5 4; Cell.mk 5 3; Cell.mk 4 3].
Proof.
  apply (tail_cell_loss counter_rand 0 LEFT curled 0%nat (Cell.mk 4 4)
           [Cell.mk 5 4; Cell.mk 5 3; Cell.mk 4 3]).
  - reflexivity.
  - unfold inside. vm_compute. repeat split; congruence.
  - reflexivity.
Defined.

(** Construction at work: [SEngine(9, 9, 1, 0)] returns an engine with the
    snake on [(4, 4)] and [(4, 5)], and [SEngine(8, 9, 1, 0)] throws. *)
Lemma construction_9_9 :
  (exists fuel e g',
      SEngine_ctor counter_rand fuel 9 9 1 0 3%nat = Done (e, g')
      /\ snake e = [Cell.mk 4 4; Cell.mk 4 5] /\ food_is_free e /\ prv_mv e = LEFT)
  /\ (exists what, SEngine_ctor counter_rand 1 8 9 1 0 3%nat = Thrown what).
Proof.
  split.
  - destruct (construction counter_rand 9 9 1 0 3%nat) as [_ Hok];
      unfold is_U, is_UU; try lia.
    destruct Hok as [Hpost Hret]; try lia.
    destruct Hret as (fuel & e & g' & Hc).
    { exists 0%nat. vm_compute. reflexivity. }
    exists fuel, e, g'. split; [exact Hc|].
    destruct (Hpost fuel e g' Hc) as (Hs & _ & _ & Hfree & Hprv & _).
    auto.
  - destruct (construction counter_rand 8 9 1 0 3%nat) as [Hbad _];
      unfold is_U, is_UU; try lia.
    apply Hbad. lia.
Defined.

(** The second cell is not below the head: in the engine that
    [SEngine(9, 9, 1, 0)] returns the second cell, [(4, 5)], is not the cell below the head, [(5, 4)],
    which is where [DOWN] takes the head and where the next line of the text
    shows; it is the cell to the [RIGHT] of the head, two slots further on
    the same line of the text. *)
Lemma second_cell_is_not_below :
  exists e g' hd c2,
    SEngine_ctor counter_rand 1 9 9 1 0 3%nat = Done (e, g')
    /\ snake e = [hd; c2]
    /\ advance hd DOWN = Cell.mk 5 4
    /\ c2 = Cell.mk 4 5
    /\ c2 <> advance hd DOWN
    /\ c2 = advance hd RIGHT
    /\ cell_index e (Cell.x c2) (Cell.y c2)
       = S (S (cell_index e (Cell.x hd) (Cell.y hd)))
    /\ cell_index e (Cell.x (advance hd DOWN)) (Cell.y (advance hd DOWN))
       = (cell_index e (Cell.x hd) (Cell.y hd) + Z.to_nat (row_width e))%nat.
Proof.
  exists started, 5%nat, (Cell.mk 4 4), (Cell.mk 4 5).
  split; [exact started_built|].
  repeat split; vm_compute; congruence.
Qed.

(** Free food on [started], and on the engine after it has gone [LEFT]. *)
Lemma food_never_on_snake_started :
  food_is_free started
  /\ exists e' g', move counter_rand 1 LEFT started 5%nat = Done (NONE, e', g')
                   /\ food_is_free e'.
Proof.
  destruct (@food_never_on_snake nat counter_rand) as (Hreach & _ & _).
  split; [apply Hreach; exact started_reachable|].
  eexists _, _. split; [vm_compute; reflexivity|].
  apply Hreach.
  apply (reach_move counter_rand 1 LEFT started 5%nat _ 5%nat started_reachable).
  vm_compute. reflexivity.
Defined.

(** Sizes at work: on the 9 x 9 board [length] is 253, and [to_wstr()] on
    [started] leaves a text of 253 characters. *)
Lemma render_size_started :
  (exists e', to_wstr true (two_cells 9 9 1 0) = Done e' /\ length e' = 253
              /\ draw_all_cursor (two_cells 9 9 1 0) = Done 253%nat)
  /\ (exists e', to_wstr false started = Done e' /\ text_length (buffer e') 253).
Proof.
  destruct (@render_size nat counter_rand) as [Hfirst Hnext]. split.
  - destruct (Hfirst (two_cells 9 9 1 0)) as (e' & Hw & _ & Hl & Hcur & _);
      [vm_compute; split; congruence..|].
    exists e'. split; [exact Hw|]. split; [exact Hl|].
    rewrite Hcur, Hl. reflexivity.
  - destruct (Hnext started started_reachable) as (_ & e' & Hw & _ & Hl & Htext).
    exists e'. split; [exact Hw|]. rewrite Hl in Htext. exact Htext.
Defined.

(** The first pass does not write 253 characters: on the 9 x 9 board, as
    the constructor runs it, it has written 91 of the 253 slots below the
    terminator; the slot of cell [(0, 0)] is unwritten, so the buffer does
    not hold a text of 253 characters yet. *)
Lemma first_pass_writes_border_only :
  exists e g',
    SEngine_ctor counter_rand 1 9 9 1 0 3%nat = Done (e, g')
    /\ length e = 253
    /\ written (take 253 (buffer e)) = 91%nat
    /\ buffer e !! cell_index e 0 0 = Some indeterminate
    /\ ~ text_length (buffer e) 253.
Proof.
  exists started, 5%nat. split; [exact started_built|].
  split; [reflexivity|]. split; [vm_compute; reflexivity|].
  split; [vm_compute; reflexivity|].
  intros [_ Htext]. destruct (Htext (cell_index started 0 0)) as (c & Hc & _).
  - vm_compute. lia.
  - vm_compute in Hc. discriminate.
Qed.

(** The buffer waits: after [started] has gone [LEFT], the buffer is the one
    of before, and the next [to_wstr()] shows the moved snake. *)
Lemma buffer_waits_started :
  exists e' g',
    move counter_rand 1 LEFT started 5%nat = Done (NONE, e', g')
    /\ buffer e' = buffer started
    /\ exists b, to_wstr false e' = Done (set_buffer e' b) /\ shows e' b.
Proof.
  eexists _, _. split; [vm_compute; reflexivity|].
  eapply (buffer_waits_for_to_wstr counter_rand started started_reachable
            1%nat LEFT 5%nat NONE).
  vm_compute. reflexivity.
Defined.

(** The buffer is stale when [move] returns: [started] is rendered, then
    goes [LEFT], which is inside the grid and returns [NONE].  When [move] returns the head is on
    [(4, 3)], and the buffer still has blanks there and blocks on [(4, 5)],
    which the snake has left. *)
Lemma buffer_is_stale_after_move :
  exists e1 e2 g2,
    to_wstr false started = Done e1
    /\ inside e1 (Cell.mk 4 4) (applied e1 LEFT)
    /\ move counter_rand 1 LEFT e1 5%nat = Done (NONE, e2, g2)
    /\ snake e2 = [Cell.mk 4 3; Cell.mk 4 4]
    /\ buffer e2 !! cell_index e2 4 3 = Some (wch SPACE)
    /\ cell_glyphs e2 (Cell.mk 4 3) = (FULL_BLOCK, FULL_BLOCK)
    /\ buffer e2 !! cell_index e2 4 5 = Some (wch FULL_BLOCK)
    /\ cell_glyphs e2 (Cell.mk 4 5) = (SPACE, SPACE)
    /\ ~ shows e2 (buffer e2).
Proof.
  eexists _, _, _. split; [vm_compute; reflexivity|].
  split; [unfold inside; vm_compute; repeat split; congruence|].
  split; [vm_compute; reflexivity|].
  repeat (split; [vm_compute; reflexivity|]).
  intros Hshows. destruct (Hshows 4 3) as [H _]; [vm_compute; split; congruence..|].
  vm_compute in H. discriminate.
Qed.

(** * Further properties of the engine *)

(** ** Lists without their last element *)

Lemma removelast_cons (a b : Cell.t) (r : list Cell.t) :
  removelast (a :: b :: r) = a :: removelast (b :: r).
Proof. reflexivity. Qed.

Lemma length_removelast_cons (a : Cell.t) (r : list Cell.t) :
  List.length (removelast (a :: r)) = List.length r.
Proof.
  revert a. induction r as [|b r IH]; intros a; [reflexivity|].
  rewrite removelast_cons. cbn [List.length]. rewrite IH. reflexivity.
Qed.

Lemma lookup_removelast (s : list Cell.t) (i : nat) :
  (S i < List.length s)%nat -> removelast s !! i = s !! i.
Proof.
  revert i. induction s as [|a r IH]; intros i Hi; [cbn in Hi; lia|].
  destruct r as [|b r']; [cbn in Hi; lia|].
  rewrite removelast_cons. destruct i as [|i]; [reflexivity|].
  cbn [lookup list_lookup]. apply IH. cbn [List.length] in *. lia.
Qed.

Lemma NoDup_removelast (s : list Cell.t) : List.NoDup s -> List.NoDup (removelast s).
Proof.
  induction s as [|a r IH]; intros Hnd; [exact Hnd|].
  destruct r as [|b r']; [constructor|].
  rewrite removelast_cons. apply List.NoDup_cons_iff in Hnd as [Hna Hr].
  apply List.NoDup_cons_iff. split; [|apply IH; exact Hr].
  intros Hin. apply Hna. apply in_removelast. exact Hin.
Qed.

Lemma chain_removelast (s : list Cell.t) : chain s -> chain (removelast s).
Proof.
  induction s as [|a r IH]; intros Hc; [exact Hc|].
  destruct r as [|b r']; [exact I|].
  rewrite removelast_cons. destruct Hc as [Hab Hr].
  destruct r' as [|c r'']; [exact I|].
  rewrite removelast_cons. split; [exact Hab|].
  rewrite <- removelast_cons. apply IH. exact Hr.
Qed.

(** ** More about one move *)

Section MoreMoves.

Context {RNG : Type}.
Variable rand_in_range : Z -> Z -> RNG -> Z * RNG.

Implicit Types (e : SEngine) (g : RNG) (mv d : Movement) (hd : Cell.t)
  (tl : list Cell.t) (fuel : nat) (st : GameStatus).

(** X1. A move inside the grid that hits neither the snake nor the food
    returns [NONE] without drawing a random number.  The head is on the new
    cell, every other cell is where the cell in front of it was, so the
    snake has as many cells as before and the tail cell is given up; food,
    score, remaining food and buffer are unchanged, and the applied
    direction is recorded as the last direction. *)
Theorem plain_move_follows fuel mv e g hd tl :
  clean_move e mv hd tl ->
  advance hd (applied e mv) <> food e ->
  exists e',
    move rand_in_range fuel mv e g = Done (NONE, e', g)
    /\ snake e' = advance hd (applied e mv) :: removelast (snake e)
    /\ List.length (snake e') = List.length (snake e)
    /\ (forall i, (S i < List.length (snake e))%nat ->
          snake e' !! S i = snake e !! i)
    /\ food e' = food e /\ score e' = score e /\ lv_food e' = lv_food e
    /\ prv_mv e' = applied e mv /\ buffer e' = buffer e.
Proof.
  intros (Hs & Hin & Hocc) Hfood. eexists. split.
  - unfold move. apply (step_plain _ _ _ _ _ _ _ Hs Hin Hocc Hfood).
  - fields. rewrite Hs. split; [reflexivity|]. split.
    + cbn [List.length]. rewrite length_removelast_cons. reflexivity.
    + split; [|auto 10]. intros i Hi. cbn [lookup list_lookup].
      apply (lookup_removelast (hd :: tl) i Hi).
Qed.

(** X2. [move] records the applied direction exactly when it returns
    [NONE]; a move that returns [LOST] or [WIN] leaves the last direction as
    it was. *)
Theorem move_records_direction fuel mv e g st e' g' :
  move rand_in_range fuel mv e g = Done (st, e', g') ->
  prv_mv e' = match st with
              | NONE => applied e mv
              | _ => prv_mv e
              end.
Proof.
  unfold move, applied. intros H.
  destruct (step_inv _ _ _ _ _ _ _ _ H) as (hd & tl & Hs & Hcases).
  destruct Hcases as [(_ & -> & -> & _)|[(_ & _ & -> & -> & _)
                     |[(_ & _ & _ & -> & -> & _)|(Hin & Hn & Hf & Hocc)]]];
    try reflexivity.
  destruct (step_eating_outcome _ _ _ _ _ _ _ _ _ _ Hs Hin Hocc Hf H)
    as (c & _ & [(-> & _ & ->)|(-> & _ & ->)]); reflexivity.
Qed.

(** X3. The status tells what happened: [LOST] is returned exactly when
    the new head would leave the grid or lands on another snake cell, and
    [WIN] exactly when the move stays inside, hits no snake cell, lands on
    the food and one food was remaining. *)
Theorem move_status fuel mv e g st e' g' hd tl :
  snake e = hd :: tl ->
  is_U (lv_food e) ->
  move rand_in_range fuel mv e g = Done (st, e', g') ->
  (st = LOST <->
     ~ inside e hd (applied e mv) \/ In (advance hd (applied e mv)) tl)
  /\ (st = WIN <->
      inside e hd (applied e mv) /\ ~ In (advance hd (applied e mv)) tl
      /\ advance hd (applied e mv) = food e /\ lv_food e = 1).
Proof.
  unfold move, applied. intros Hs0 Hlv H.
  destruct (step_inv _ _ _ _ _ _ _ _ H) as (hd' & tl' & Hs & Hcases).
  rewrite Hs0 in Hs. injection Hs as <- <-.
  assert (Hone : to_U (lv_food e - 1) = 0 <-> lv_food e = 1)
    by (unfold to_U, is_U in *; split; intros; Z.div_mod_to_equations; lia).
  destruct Hcases as [(Hout & -> & _)|[(Hin & Hhit & -> & _)
                     |[(Hin & Hn & Hne & -> & _)|(Hin & Hn & Hf & Hocc)]]].
  - split; split; try tauto; try discriminate.
  - split; split; try tauto; try discriminate.
  - split; split; try discriminate; tauto.
  - destruct (step_eating_outcome _ _ _ _ _ _ _ _ _ _ Hs0 Hin Hocc Hf H)
      as (c & _ & [(-> & Hz & _)|(-> & Hnz & _)]).
    + split; split; try discriminate; tauto.
    + split; split; try discriminate; tauto.
Qed.

(** X4. Food, score and remaining food change only when the snake eats, and
    only then are random numbers drawn: a move that returns [LOST], or one
    whose new head is not on the food, leaves all of them and the generator
    as they were. *)
Theorem counters_change_only_by_eating fuel mv e g st e' g' hd tl :
  snake e = hd :: tl ->
  move rand_in_range fuel mv e g = Done (st, e', g') ->
  st = LOST \/ advance hd (applied e mv) <> food e ->
  food e' = food e /\ score e' = score e /\ lv_food e' = lv_food e /\ g' = g.
Proof.
  unfold move, applied. intros Hs0 H Hno.
  destruct (step_inv _ _ _ _ _ _ _ _ H) as (hd' & tl' & Hs & Hcases).
  rewrite Hs0 in Hs. injection Hs as <- <-.
  destruct Hcases as [(_ & _ & -> & ->)|[(_ & _ & _ & -> & ->)
                     |[(_ & _ & _ & _ & -> & ->)|(Hin & Hn & Hf & Hocc)]]];
    try (fields; tauto).
  destruct (step_eating_outcome _ _ _ _ _ _ _ _ _ _ Hs0 Hin Hocc Hf H)
    as (c & _ & [(-> & _ & _)|(-> & _ & _)]);
    destruct Hno as [Hl|Hne]; try discriminate; contradiction.
Qed.

(** X5. With no food remaining, as after a win, an eating move still eats:
    the remaining food wraps from 0 to 255 and the move returns [NONE]. *)
Theorem eating_after_win_wraps fuel mv e g hd tl st e' g' :
  eating_move e mv hd tl ->
  lv_food e = 0 ->
  move rand_in_range fuel mv e g = Done (st, e', g') ->
  st = NONE /\ lv_food e' = 255
  /\ snake e' = advance hd (applied e mv) :: snake e.
Proof.
  intros [(Hs & Hin & Hocc) Hfood] H0 H. unfold move in H.
  destruct (step_eating_outcome _ _ _ _ _ _ _ _ _ _ Hs Hin Hocc Hfood H)
    as (c & _ & [(-> & Hz & ->)|(-> & Hnz & ->)]); cbn [lv_food snake];
    rewrite H0 in *.
  - vm_compute in Hz. discriminate.
  - auto.
Qed.

End MoreMoves.

(** ** Directions and steps *)

(** X6. A step and a step back: moving a cell whose coordinates are values
    of [U] by one direction and then by the opposite one gives the cell
    again, also across the wrap-around at 0 and at 255. *)
Theorem advance_round_trip (c : Cell.t) (d : Movement) :
  is_U (Cell.x c) -> is_U (Cell.y c) ->
  advance (advance c d) (opposite d) = c.
Proof.
  destruct c as [cx cy]. unfold is_U, advance, to_U. cbn [Cell.x Cell.y].
  intros Hx Hy.
  destruct d; cbn [offset opposite fst snd]; f_equal;
    Z.div_mod_to_equations; lia.
Qed.

Lemma clamp_never_opposite (mv p : Movement) : clamp mv p <> opposite p.
Proof. destruct mv, p; cbn; discriminate. Qed.

Lemma clamp_clamp (mv p : Movement) : clamp (clamp mv p) p = clamp mv p.
Proof. destruct mv, p; reflexivity. Qed.

Section Clamp.

Context {RNG : Type}.
Variable rand_in_range : Z -> Z -> RNG -> Z * RNG.

(** X7. The direction [move] applies is never the opposite of the last
    direction, and it is a fixed point of the clamp: asking for the applied
    direction has the outcome of the request itself. *)
Theorem applied_direction_is_stable (fuel : nat) (mv : Movement) (e : SEngine) (g : RNG) :
  applied e mv <> opposite (prv_mv e)
  /\ applied e (applied e mv) = applied e mv
  /\ move rand_in_range fuel (applied e mv) e g = move rand_in_range fuel mv e g.
Proof.
  unfold applied, move. split; [apply clamp_never_opposite|].
  rewrite clamp_clamp. auto.
Qed.

End Clamp.

(** ** Placing the food *)

Section Placing.

Context {RNG : Type}.
Variable rand_in_range : Z -> Z -> RNG -> Z * RNG.

Implicit Types (e : SEngine) (g : RNG) (fuel : nat).

Lemma generator_after_dims n e1 e2 g :
  xsz e1 = xsz e2 -> ysz e1 = ysz e2 ->
  generator_after rand_in_range n e1 g = generator_after rand_in_range n e2 g.
Proof.
  intros Hx Hy. revert g. induction n as [|n IH]; intros g; [reflexivity|].
  cbn [generator_after]. rewrite (generate_dims _ e1 e2 g Hx Hy). apply IH.
Qed.

(** X8. [addnewfood] is rejection sampling: when it returns, the food is
    the first cell of the generator's sequence that is on no snake cell,
    every cell drawn before it is on the snake, the generator has made
    exactly the draws of those passes, and nothing but the food has
    changed. *)
Theorem addnewfood_first_free fuel e g e' g' :
  addnewfood rand_in_range fuel e g = Done (e', g') ->
  exists n : nat,
    (n < fuel)%nat
    /\ e' = set_food e (candidate rand_in_range n e g)
    /\ find_in (snake e) (candidate rand_in_range n e g) = false
    /\ (forall m, (m < n)%nat ->
          find_in (snake e) (candidate rand_in_range m e g) = true)
    /\ g' = generator_after rand_in_range (S n) e g.
Proof.
  revert e g. induction fuel as [|fuel IH]; intros e g H; [discriminate|].
  cbn [addnewfood] in H.
  destruct (generate rand_in_range e g) as [c g1] eqn:G. fields.
  destruct (find_in (snake e) c) eqn:E.
  - destruct (IH _ _ H) as (n & Hn & He' & Hfree & Hbefore & Hg'). fields.
    assert (Hc : forall m, candidate rand_in_range m
                   (mkSEngine (snake e) (xsz e) (ysz e) (lv_food e) (score e) c
                              (prv_mv e) (buffer e) (length e)) g1
                 = candidate rand_in_range (S m) e g).
    { intros m. rewrite (candidate_dims _ m _ e) by reflexivity.
      unfold candidate. cbn [generator_after]. rewrite G. reflexivity. }
    exists (S n). rewrite Hc in He', Hfree.
    split; [lia|]. split; [exact He'|]. split; [exact Hfree|]. split.
    + intros [|m] Hm.
      * unfold candidate. cbn [generator_after]. rewrite G. exact E.
      * rewrite <- Hc. apply Hbefore. lia.
    + rewrite Hg'. rewrite (generator_after_dims (S n) _ e) by reflexivity.
      change (generator_after rand_in_range (S (S n)) e g)
        with (generator_after rand_in_range (S n) e (snd (generate rand_in_range e g))).
      rewrite G. reflexivity.
  - injection H as <- <-. exists 0%nat.
    unfold candidate. cbn [generator_after]. rewrite G. cbn [fst snd].
    split; [lia|]. split; [reflexivity|]. split; [exact E|].
    split; [intros m Hm; lia | reflexivity].
Qed.

(** X9. When every cell the generator draws is on the snake, [addnewfood]
    never returns: it is still at [retry:] after any number of passes.  This
    is what happens when the snake covers the grid. *)
Theorem addnewfood_spins fuel e g :
  (forall n, find_in (snake e) (candidate rand_in_range n e g) = true) ->
  addnewfood rand_in_range fuel e g = Spinning.
Proof.
  revert e g. induction fuel as [|fuel IH]; intros e g Hall; [reflexivity|].
  cbn [addnewfood].
  destruct (generate rand_in_range e g) as [c g1] eqn:G. fields.
  pose proof (Hall 0%nat) as H0. unfold candidate in H0.
  cbn [generator_after] in H0. rewrite G in H0. cbn [fst] in H0. rewrite H0.
  apply IH. fields. intros n.
  rewrite (candidate_dims _ n _ e) by reflexivity.
  specialize (Hall (S n)). unfold candidate in *. cbn [generator_after] in Hall.
  rewrite G in Hall. exact Hall.
Qed.

(** [addnewfood] neither throws nor runs into undefined behaviour. *)
Lemma addnewfood_safe fuel e g :
  addnewfood rand_in_range fuel e g = Spinning
  \/ exists r, addnewfood rand_in_range fuel e g = Done r.
Proof.
  revert e g. induction fuel as [|fuel IH]; intros e g; [left; reflexivity|].
  cbn [addnewfood]. destruct (generate rand_in_range e g) as [c g1]. fields.
  destruct (find_in (snake e) c); [apply IH | right; eauto].
Qed.

(** X10. The constructor checks the board before the food: a side below 9
    throws "board size too small" whatever the food target is, and only a
    board of valid size with no food to eat throws "food must to be at least
    1".  Neither check draws a random number. *)
Theorem construction_errors fuel X Y F SC g :
  (X < 9 \/ Y < 9 ->
     SEngine_ctor rand_in_range fuel X Y F SC g = Thrown "board size too small")
  /\ (9 <= X -> 9 <= Y -> F <= 0 ->
      SEngine_ctor rand_in_range fuel X Y F SC g = Thrown "food must to be at least 1").
Proof.
  unfold SEngine_ctor. split.
  - intros Hbad. destruct (Z.ltb_spec X 9); [reflexivity|].
    destruct (Z.ltb_spec Y 9); [reflexivity | lia].
  - intros HX HY HF.
    destruct (Z.ltb_spec X 9); [lia|]. destruct (Z.ltb_spec Y 9); [lia|].
    cbn [orb]. destruct (Z.leb_spec F 0); [reflexivity | lia].
Qed.

End Placing.

(** ** The shape of the snake during a game *)

Lemma advance_inside (e : SEngine) (hd : Cell.t) (d : Movement) :
  inside e hd d -> xsz e <= 256 -> ysz e <= 256 ->
  advance hd d
  = Cell.mk (Cell.x hd + fst (offset d)) (Cell.y hd + snd (offset d)).
Proof.
  intros [Hx Hy] HX HY. unfold advance, to_U.
  rewrite !Z.mod_small by lia. reflexivity.
Qed.

Lemma adjacent_step (c : Cell.t) (d : Movement) :
  adjacent (Cell.mk (Cell.x c + fst (offset d)) (Cell.y c + snd (offset d))) c.
Proof. unfold adjacent. destruct d; cbn [offset fst snd Cell.x Cell.y]; lia. Qed.

Lemma well_shaped_fields (e e' : SEngine) :
  snake e' = snake e -> xsz e' = xsz e -> ysz e' = ysz e -> prv_mv e' = prv_mv e ->
  well_shaped e -> well_shaped e'.
Proof.
  unfold well_shaped, heads_away, in_grid. intros -> -> -> ->. tauto.
Qed.

(** The snake that a move returning [NONE] leaves. *)
Lemma well_shaped_next (e : SEngine) (hd : Cell.t) (tl body : list Cell.t)
    (d : Movement) (e' : SEngine) :
  xsz e <= 256 -> ysz e <= 256 ->
  well_shaped e -> snake e = hd :: tl ->
  inside e hd d -> ~ In (advance hd d) tl ->
  (body = hd :: tl \/ body = removelast (hd :: tl)) ->
  snake e' = advance hd d :: body ->
  xsz e' = xsz e -> ysz e' = ysz e -> prv_mv e' = d ->
  well_shaped e'.
Proof.
  intros HX HY (Hlen & Hgrid & Hnd & Hch & _) Hs Hin Hn Hbody Hs' Hx' Hy' Hp'.
  rewrite Hs in Hlen, Hgrid, Hnd, Hch.
  destruct tl as [|neck tl']; [cbn in Hlen; lia|].
  pose proof (advance_inside e hd d Hin HX HY) as Hadv.
  assert (Hsub : forall c, In c body -> In c (hd :: neck :: tl'))
    by (destruct Hbody as [->| ->]; [auto | intros c; apply in_removelast]).
  assert (Hb : exists rest, body = hd :: rest)
    by (destruct Hbody as [->| ->]; [eauto | rewrite removelast_cons; eauto]).
  destruct Hb as (rest & Hrest).
  unfold well_shaped, heads_away, in_grid. rewrite Hs', Hx', Hy', Hp'.
  split; [rewrite Hrest; cbn [List.length]; lia|]. split; [|split; [|split]].
  - intros c [<-|Hc]; [rewrite Hadv; exact Hin | apply Hgrid, Hsub, Hc].
  - apply List.NoDup_cons_iff. split.
    + intros Hc. apply Hsub in Hc. destruct Hc as [Hc|Hc]; [|contradiction].
      symmetry in Hc. exact (advance_moves hd d Hc).
    + destruct Hbody as [->| ->]; [exact Hnd | apply NoDup_removelast; exact Hnd].
  - rewrite Hrest. split.
    + rewrite Hadv. apply adjacent_step.
    + rewrite <- Hrest.
      destruct Hbody as [->| ->]; [exact Hch | apply chain_removelast; exact Hch].
  - rewrite Hrest. exact Hadv.
Qed.

Section Shape.

Context {RNG : Type}.
Variable rand_in_range : Z -> Z -> RNG -> Z * RNG.

Implicit Types (e : SEngine) (g : RNG) (mv d : Movement) (hd : Cell.t)
  (tl : list Cell.t) (fuel : nat) (st : GameStatus).

Lemma ctor_well_shaped fuel X Y F SC g e g' :
  is_U X -> is_U Y ->
  SEngine_ctor rand_in_range fuel X Y F SC g = Done (e, g') ->
  well_shaped e.
Proof.
  unfold is_U. intros HX HY Hc.
  destruct (ctor_inv _ _ _ _ _ _ _ _ _ Hc) as (H9x & H9y & _ & c & b & _ & -> & _).
  assert (Hq : 0 <= X ÷ 2 < X /\ 0 <= Y ÷ 2 /\ Y ÷ 2 + 1 < Y)
    by (rewrite !Z.quot_div_nonneg by lia; Z.div_mod_to_equations; lia).
  unfold well_shaped, heads_away, in_grid, two_cells, to_U.
  cbn [snake xsz ysz prv_mv List.length offset fst snd].
  rewrite !Z.mod_small by lia. cbn [Cell.x Cell.y].
  split; [lia|]. split; [|split; [|split]].
  - intros c0 [<-|[<-|[]]]; cbn [Cell.x Cell.y]; lia.
  - repeat constructor; cbn; [|tauto].
    intros [H|[]]. injection H. lia.
  - split; [|exact I]. unfold adjacent. cbn [Cell.x Cell.y]. lia.
  - f_equal; lia.
Qed.

Lemma move_well_shaped fuel mv e g e' g' :
  ready e -> well_shaped e ->
  move rand_in_range fuel mv e g = Done (NONE, e', g') ->
  well_shaped e'.
Proof.
  unfold move. intros (_ & HX & HY & _) Hw H.
  destruct (step_inv _ _ _ _ _ _ _ _ H) as (hd & tl & Hs & Hcases).
  destruct Hcases as [(_ & Hl & _)|[(_ & _ & Hl & _)
                     |[(Hin & Hn & _ & _ & -> & _)|(Hin & Hn & Hf & Hocc)]]];
    try discriminate.
  - apply (well_shaped_next e hd tl (removelast (hd :: tl)) (clamp mv (prv_mv e)));
      try assumption; try lia; auto.
  - destruct (step_eating_outcome _ _ _ _ _ _ _ _ _ _ Hs Hin Hocc Hf H)
      as (c & _ & [(Hl & _)|(_ & _ & ->)]); [discriminate|].
    apply (well_shaped_next e hd tl (hd :: tl) (clamp mv (prv_mv e)));
      try assumption; try lia; auto.
    cbn [snake]. rewrite Hs. reflexivity.
Qed.

Lemma reachable_well_shaped e : reachable rand_in_range e -> well_shaped e.
Proof.
  induction 1 as [fuel X Y F SC g e g' HX HY HF HS Hc
                 | fuel mv e g e' g' Hr IH Hm
                 | e e' Hr IH Hw].
  - apply (ctor_well_shaped fuel X Y F SC g e g' HX HY Hc).
  - apply (move_well_shaped fuel mv e g e' g' (reachable_ready _ e Hr) IH Hm).
  - destruct (to_wstr_fields _ _ _ Hw) as (Hs & Hx & Hy & _ & _ & _ & Hp).
    apply (well_shaped_fields e e' Hs Hx Hy Hp IH).
Qed.

(** X11. During a game every cell of the snake is a cell of the grid. *)
Theorem snake_stays_in_grid e :
  reachable rand_in_range e ->
  forall c, In c (snake e) ->
    0 <= Cell.x c < xsz e /\ 0 <= Cell.y c < ysz e.
Proof. intros Hr. apply (reachable_well_shaped e Hr). Qed.

(** X12. During a game no two cells of the snake are on the same place. *)
Theorem snake_never_overlaps e :
  reachable rand_in_range e -> List.NoDup (snake e).
Proof. intros Hr. apply (reachable_well_shaped e Hr). Qed.

(** X13. During a game the snake has at least two cells and is one piece:
    each cell shares a side with the cell behind it. *)
Theorem snake_is_a_chain e :
  reachable rand_in_range e ->
  (2 <= List.length (snake e))%nat /\ chain (snake e).
Proof.
  intros Hr. destruct (reachable_well_shaped e Hr) as (Hl & _ & _ & Hc & _). auto.
Qed.

(** X14. During a game the second cell is right behind the head in the
    last direction, and no request can take the head onto it: whatever is
    asked for, the applied direction leads elsewhere. *)
Theorem head_never_turns_into_neck e hd neck tl :
  reachable rand_in_range e ->
  snake e = hd :: neck :: tl ->
  advance neck (prv_mv e) = hd
  /\ forall mv, advance hd (applied e mv) <> neck.
Proof.
  intros Hr Hs.
  destruct (reachable_well_shaped e Hr) as (_ & Hgrid & _ & _ & Haway).
  destruct (reachable_ready _ e Hr) as (_ & HX & HY & _).
  unfold heads_away in Haway. rewrite Hs in Haway, Hgrid.
  pose proof (Hgrid hd ltac:(left; reflexivity)) as [Hhx Hhy].
  pose proof (Hgrid neck ltac:(right; left; reflexivity)) as [Hnx Hny].
  destruct hd as [hx hy], neck as [nx ny]. cbn [Cell.x Cell.y] in *.
  injection Haway as Hx Hy. split.
  - unfold advance, to_U. cbn [Cell.x Cell.y]. rewrite <- Hx, <- Hy.
    rewrite !Z.mod_small by lia. reflexivity.
  - intros mv Heq. unfold applied, advance, to_U in Heq. cbn [Cell.x Cell.y] in Heq.
    injection Heq as Ex Ey.
    destruct mv, (prv_mv e); cbn [clamp areOpposite Movement_eqb andb orb offset fst snd] in *;
      Z.div_mod_to_equations; lia.
Qed.

End Shape.

(** ** Counting through a game *)

Section Counting.

Context {RNG : Type}.
Variable rand_in_range : Z -> Z -> RNG -> Z * RNG.

Implicit Types (e : SEngine) (g : RNG) (mv d : Movement) (hd : Cell.t)
  (tl : list Cell.t) (fuel : nat) (st : GameStatus).

Lemma played_reachable X Y F SC e :
  played rand_in_range X Y F SC e -> reachable rand_in_range e.
Proof.
  induction 1 as [fuel g e g' HX HY HF HS Hc
                 | fuel mv e g e' g' Hp IH Hm
                 | e e' Hp IH Hw].
  - apply (reach_ctor _ fuel X Y F SC g e g' HX HY HF HS Hc).
  - apply (reach_move _ fuel mv e g e' g' IH Hm).
  - apply (reach_render _ e e' IH Hw).
Qed.

Lemma played_counts X Y F SC e :
  played rand_in_range X Y F SC e ->
  F < 256 /\ xsz e = X /\ ysz e = Y /\ 1 <= lv_food e <= F
  /\ Z.of_nat (List.length (snake e)) = 2 + (F - lv_food e)
  /\ score e = to_UU (SC + (F - lv_food e)).
Proof.
  intros Hp.
  induction Hp as [fuel g e g' HX HY HF HS Hc
                  | fuel mv e g e' g' Hp IH Hm
                  | e e' Hp IH Hw].
  - destruct (ctor_inv _ _ _ _ _ _ _ _ _ Hc) as (_ & _ & HF0 & c & b & _ & -> & _).
    unfold is_U, is_UU, to_UU in *. cbn [xsz ysz lv_food score snake two_cells List.length].
    replace (SC + (F - F)) with SC by lia. rewrite Z.mod_small by lia. lia.
  - destruct IH as (HF & Hx & Hy & Hlv & Hlen & Hsc). unfold move in Hm.
    destruct (step_inv _ _ _ _ _ _ _ _ Hm) as (hd & tl & Hs & Hcases).
    destruct Hcases as [(_ & Hl & _)|[(_ & _ & Hl & _)
                       |[(_ & _ & _ & _ & -> & _)|(Hin & Hn & Hf & Hocc)]]];
      try discriminate.
    + fields. rewrite Hs in Hlen. cbn [List.length] in *.
      rewrite length_removelast_cons. auto 10.
    + destruct (step_eating_outcome _ _ _ _ _ _ _ _ _ _ Hs Hin Hocc Hf Hm)
        as (c & _ & [(Hl & _)|(_ & Hnz & ->)]); [discriminate|].
      cbn [xsz ysz lv_food score snake List.length].
      assert (Hsmall : to_U (lv_food e - 1) = lv_food e - 1)
        by (unfold to_U; apply Z.mod_small; lia).
      rewrite Hsmall in *. rewrite Hsc. unfold to_UU.
      rewrite Z.add_mod_idemp_l by lia.
      replace (SC + (F - lv_food e) + 1) with (SC + (F - (lv_food e - 1))) by lia.
      repeat split; try lia; reflexivity.
  - destruct (to_wstr_fields _ _ _ Hw) as (-> & -> & -> & -> & -> & _). exact IH.
Qed.

(** X15. In a game started by [SEngine(X, Y, F, SC)] the board keeps its
    size, between 1 and [F] foods remain, the snake has two cells plus one
    for each food eaten, and [get_score] is the starting score plus the
    number of foods eaten, in 16 bits. *)
Theorem game_accounting X Y F SC e :
  played rand_in_range X Y F SC e ->
  xsz e = X /\ ysz e = Y
  /\ 1 <= get_food e <= F
  /\ Z.of_nat (List.length (snake e)) = 2 + (F - get_food e)
  /\ get_score e = to_UU (SC + (F - get_food e)).
Proof.
  unfold get_food, get_score. intros Hp.
  pose proof (played_counts X Y F SC e Hp). tauto.
Qed.

(** X22. The move that wins a game started by [SEngine(X, Y, F, SC)]
    leaves no food remaining, a snake of [2 + F] cells, and the starting
    score plus [F], in 16 bits, as [get_score]. *)
Theorem game_won fuel mv X Y F SC e g e' g' :
  played rand_in_range X Y F SC e ->
  move rand_in_range fuel mv e g = Done (WIN, e', g') ->
  get_food e' = 0
  /\ Z.of_nat (List.length (snake e')) = 2 + F
  /\ get_score e' = to_UU (SC + F).
Proof.
  unfold get_food, get_score. intros Hp Hm.
  destruct (played_counts X Y F SC e Hp) as (HF & _ & _ & Hlv & Hlen & Hsc).
  unfold move in Hm.
  destruct (step_inv _ _ _ _ _ _ _ _ Hm) as (hd & tl & Hs & Hcases).
  destruct Hcases as [(_ & Hl & _)|[(_ & _ & Hl & _)
                     |[(_ & _ & _ & Hl & _)|(Hin & Hn & Hf & Hocc)]]];
    try discriminate.
  destruct (step_eating_outcome _ _ _ _ _ _ _ _ _ _ Hs Hin Hocc Hf Hm)
    as (c & _ & [(_ & Hz & ->)|(Hl & _)]); [|discriminate].
  cbn [lv_food score snake List.length].
  assert (Hsmall : to_U (lv_food e - 1) = lv_food e - 1)
    by (unfold to_U; apply Z.mod_small; lia).
  rewrite Hsmall in Hz. rewrite Hsc. unfold to_UU.
  rewrite Z.add_mod_idemp_l by lia.
  replace (SC + (F - lv_food e) + 1) with (SC + F) by lia.
  repeat split; try lia; reflexivity.
Qed.

(** *** Where the food lies *)

Lemma generate_in_grid e g :
  keeps_range rand_in_range ->
  1 <= xsz e <= 256 -> 1 <= ysz e <= 256 ->
  in_grid e (fst (generate rand_in_range e g)).
Proof.
  intros Hk HX HY. unfold generate.
  assert (H0 : to_U 0 = 0) by reflexivity.
  assert (Hx1 : to_U (xsz e - 1) = xsz e - 1) by (unfold to_U; apply Z.mod_small; lia).
  assert (Hy1 : to_U (ysz e - 1) = ysz e - 1) by (unfold to_U; apply Z.mod_small; lia).
  rewrite H0, Hx1, Hy1.
  pose proof (Hk 0 (xsz e - 1) g ltac:(lia)) as Ha.
  destruct (rand_in_range 0 (xsz e - 1) g) as [a g1]. cbn [fst] in Ha.
  pose proof (Hk 0 (ysz e - 1) g1 ltac:(lia)) as Hb.
  destruct (rand_in_range 0 (ysz e - 1) g1) as [b g2]. cbn [fst] in *.
  unfold in_grid, to_U. cbn [Cell.x Cell.y]. rewrite !Z.mod_small by lia. lia.
Qed.

Lemma addnewfood_in_grid fuel e g e' g' :
  keeps_range rand_in_range ->
  1 <= xsz e <= 256 -> 1 <= ysz e <= 256 ->
  addnewfood rand_in_range fuel e g = Done (e', g') ->
  in_grid e (food e').
Proof.
  intros Hk HX HY. revert e g HX HY.
  induction fuel as [|fuel IH]; intros e g HX HY H; [discriminate|].
  cbn [addnewfood] in H.
  pose proof (generate_in_grid e g Hk HX HY) as Hg.
  destruct (generate rand_in_range e g) as [c g1]. cbn [fst] in Hg. fields.
  destruct (find_in (snake e) c).
  - apply IH in H; [exact H | exact HX | exact HY].
  - injection H as <- <-. exact Hg.
Qed.

(** X16. With a generator that keeps to the range it is asked for, the
    food is a cell of the grid throughout a game. *)
Theorem food_stays_in_grid e :
  keeps_range rand_in_range ->
  reachable rand_in_range e ->
  0 <= Cell.x (food e) < xsz e /\ 0 <= Cell.y (food e) < ysz e.
Proof.
  intros Hk Hr. change (in_grid e (food e)).
  induction Hr as [fuel X Y F SC g e g' HX HY HF HS Hc
                  | fuel mv e g e' g' Hr IH Hm
                  | e e' Hr IH Hw].
  - unfold SEngine_ctor in Hc.
    destruct ((X <? 9) || (Y <? 9)) eqn:Hsz; [discriminate|].
    destruct (F <=? 0); [discriminate|].
    apply orb_false_elim in Hsz as [H9x H9y]. apply Z.ltb_ge in H9x, H9y.
    unfold is_U in *.
    destruct (addnewfood rand_in_range fuel (two_cells X Y F SC) g)
      as [[e1 g1]| | |] eqn:A; cbn [obind] in Hc; try discriminate.
    pose proof (addnewfood_in_grid fuel (two_cells X Y F SC) g e1 g1 Hk
                  ltac:(cbn; lia) ltac:(cbn; lia) A) as Hg.
    apply addnewfood_sound in A. destruct A as [He1 _].
    cbn [fst snd] in Hc.
    destruct (to_wstr true (set_prv_mv e1 LEFT)) as [e2| | |] eqn:W;
      cbn [obind] in Hc; try discriminate.
    injection Hc as <- <-.
    destruct (to_wstr_fields _ _ _ W) as (_ & Hx & Hy & _ & _ & Hf & _).
    unfold in_grid in *. rewrite Hx, Hy, Hf. rewrite He1. fields. exact Hg.
  - pose proof (reachable_ready _ e Hr) as (_ & HX & HY & _).
    unfold move in Hm.
    destruct (step_inv _ _ _ _ _ _ _ _ Hm) as (hd & tl & Hs & Hcases).
    destruct Hcases as [(_ & Hl & _)|[(_ & _ & Hl & _)
                       |[(_ & _ & _ & _ & -> & _)|(Hin & Hn & Hf & Hocc)]]];
      try discriminate.
    + exact IH.
    + rewrite (step_eating _ _ _ _ _ _ _ Hs Hin Hocc Hf) in Hm.
      destruct (addnewfood rand_in_range fuel (grown e (advance hd (clamp mv (prv_mv e)))) g)
        as [[e1 g1]| | |] eqn:A; cbn [obind] in Hm; try discriminate.
      pose proof (addnewfood_in_grid fuel (grown e (advance hd (clamp mv (prv_mv e)))) g
                    e1 g1 Hk ltac:(cbn; lia) ltac:(cbn; lia) A) as Hg.
      apply addnewfood_sound in A. destruct A as [He1 _].
      assert (Hx1 : xsz e1 = xsz e) by (rewrite He1; reflexivity).
      assert (Hy1 : ysz e1 = ysz e) by (rewrite He1; reflexivity).
      cbn [fst snd] in Hm.
      destruct (lv_food _ =? 0) in Hm; [discriminate|].
      injection Hm as <- <-.
      unfold in_grid in *. fields. rewrite Hx1, Hy1. exact Hg.
  - destruct (to_wstr_fields _ _ _ Hw) as (_ & Hx & Hy & _ & _ & Hf & _).
    unfold in_grid in *. rewrite Hx, Hy, Hf. exact IH.
Qed.

End Counting.

(** ** More about rendering *)

(** Slot by slot, what [to_wstr()] leaves. *)
Lemma to_wstr_slots (e : SEngine) :
  ready e ->
  exists b,
    to_wstr false e = Done (set_buffer e b)
    /\ List.length b = List.length (buffer e)
    /\ forall i, b !! i = if interior e i then Some (wch (glyph_at e i))
                          else buffer e !! i.
Proof.
  intros (Hs & Hxs & Hys & Hlen & Hfr).
  destruct Hfr as (Hsize & _).
  destruct (draw_cells_paints e (buffer e) Hs ltac:(lia) ltac:(lia) Hsize)
    as (k & b & Hdraw & [Hblen Hb] & Hk).
  exists b. split; [unfold to_wstr; rewrite Hdraw; reflexivity|].
  split; [exact Hblen|]. intros i. rewrite Hb.
  destruct (interior e i) eqn:Hint; [|reflexivity].
  pose proof (interior_below e i ltac:(lia) Hint).
  replace (i <? k)%nat with true by (symmetry; apply Nat.ltb_lt; lia).
  reflexivity.
Qed.

Lemma ready_set_buffer (e : SEngine) (b : list wslot) :
  ready e -> framed e b -> ready (set_buffer e b).
Proof.
  intros (Hs & Hx & Hy & Hl & _) Hfr. unfold ready.
  cbn [set_buffer snake xsz ysz length buffer]. auto.
Qed.

(** X17. Rendering never changes the game: whichever pass [to_wstr] runs,
    the engine it leaves has the snake, food, score, remaining food, last
    direction and board size of the engine it was called on. *)
Theorem render_keeps_the_game (first : bool) (e e' : SEngine) :
  to_wstr first e = Done e' ->
  snake e' = snake e /\ food e' = food e
  /\ get_score e' = get_score e /\ get_food e' = get_food e
  /\ prv_mv e' = prv_mv e /\ xsz e' = xsz e /\ ysz e' = ysz e.
Proof.
  intros H. unfold get_score, get_food.
  destruct (to_wstr_fields _ _ _ H) as (? & ? & ? & ? & ? & ? & ?). auto 10.
Qed.

Section Rendering.

Context {RNG : Type}.
Variable rand_in_range : Z -> Z -> RNG -> Z * RNG.

(** X18. [to_wstr()] is idempotent during a game: calling it again on the
    engine it has just left returns that very engine, buffer included. *)
Theorem to_wstr_idempotent (e e1 : SEngine) :
  reachable rand_in_range e ->
  to_wstr false e = Done e1 ->
  to_wstr false e1 = Done e1.
Proof.
  intros Hr H1. apply reachable_ready in Hr.
  destruct (to_wstr_slots e Hr) as (b & Hw & Hlen & Hb).
  destruct (to_wstr_paints e Hr) as (b' & Hw' & _ & Hfr & _).
  rewrite Hw in H1, Hw'. injection H1 as <-. injection Hw' as <-.
  destruct (to_wstr_slots (set_buffer e b) (ready_set_buffer e b Hr Hfr))
    as (b2 & Hw2 & Hlen2 & Hb2).
  rewrite Hw2. f_equal. unfold set_buffer. cbn [snake xsz ysz lv_food score food prv_mv length].
  f_equal. apply list_eq. intros i. rewrite Hb2. cbn [set_buffer buffer].
  change (interior (set_buffer e b) i) with (interior e i).
  change (glyph_at (set_buffer e b) i) with (glyph_at e i).
  rewrite Hb. destruct (interior e i); reflexivity.
Qed.

(** X19. During a game [to_wstr()] writes the slots of the cells and
    nothing else: the buffer keeps its size, and every slot of the border,
    every newline and the terminator are as they were. *)
Theorem to_wstr_keeps_the_border (e e' : SEngine) :
  reachable rand_in_range e ->
  to_wstr false e = Done e' ->
  List.length (buffer e') = List.length (buffer e)
  /\ forall i, interior e i = false -> buffer e' !! i = buffer e !! i.
Proof.
  intros Hr H1. apply reachable_ready in Hr.
  destruct (to_wstr_slots e Hr) as (b & Hw & Hlen & Hb).
  rewrite Hw in H1. injection H1 as <-. cbn [set_buffer buffer].
  split; [exact Hlen|]. intros i Hi. rewrite Hb, Hi. reflexivity.
Qed.

(** X20. The text [to_wstr()] leaves during a game is a block of
    [xsz + 2] lines of equal width: its [(xsz+2) * (2*ysz+5)] characters are
    all written, and a character is a newline exactly when it is the last
    of a run of [2*ysz + 5]. *)
Theorem text_is_a_block_of_lines (e e' : SEngine) :
  reachable rand_in_range e ->
  to_wstr false e = Done e' ->
  length e' = (xsz e + 2) * (2 * ysz e + 5)
  /\ forall i, (i < Z.to_nat (length e'))%nat ->
       exists c, buffer e' !! i = Some (wch c)
                 /\ (c = NEWLINE <-> Z.of_nat i mod (2 * ysz e + 5) = 2 * ysz e + 4).
Proof.
  intros Hr H1. apply reachable_ready in Hr.
  destruct (to_wstr_slots e Hr) as (b & Hw & Hlen & Hb).
  rewrite Hw in H1. injection H1 as <-. cbn [set_buffer buffer length].
  destruct Hr as (_ & Hx & Hy & Hl & (_ & _ & Hborder)).
  rewrite Hl, LENGTH_rows. split; [reflexivity|].
  intros i Hi. rewrite <- LENGTH_rows in Hi. rewrite Hb.
  destruct (interior e i) eqn:Hint.
  - exists (glyph_at e i). split; [reflexivity|].
    unfold interior, row_width in Hint.
    apply andb_prop in Hint as [_ Hc]. apply Z.ltb_lt in Hc.
    split.
    + unfold glyph_at, cell_glyphs.
      destruct (Z.even _), (find e (cell_of_slot e i)),
        (Cell.eqb (cell_of_slot e i) (food e)); cbn; discriminate.
    + lia.
  - exists (border_at e i). split; [apply Hborder; assumption|].
    unfold border_at, row_width.
    destruct (Z.eqb_spec (Z.of_nat i mod (2 * ysz e + 5)) (2 * ysz e + 5 - 1)).
    + split; [lia | reflexivity].
    + split; [discriminate | lia].
Qed.

Lemma step_safe (fuel : nat) (d : Movement) (e : SEngine) (g : RNG) :
  snake e <> [] ->
  step rand_in_range fuel d e g = Spinning
  \/ exists r, step rand_in_range fuel d e g = Done r.
Proof.
  intros Hne. destruct (snake e) as [|hd tl] eqn:Hs; [congruence|].
  destruct (isInvalidMovement e hd d) eqn:Hinv.
  { apply isInvalidMovement_true in Hinv. right.
    rewrite (step_bounds _ _ _ _ _ _ _ Hs Hinv). eauto. }
  apply isInvalidMovement_false in Hinv.
  destruct (occurrences (advance hd d) (advance hd d :: tl) >? 1) eqn:Hocc.
  { right. rewrite (step_collision _ _ _ _ _ _ _ Hs Hinv); [eauto|].
    apply Z.gtb_lt in Hocc. lia. }
  assert (Hle : occurrences (advance hd d) (advance hd d :: tl) <= 1)
    by (rewrite Z.gtb_ltb in Hocc; apply Z.ltb_ge in Hocc; lia).
  destruct (Cell.eqb (advance hd d) (food e)) eqn:Hf.
  - apply Cell_eqb_eq in Hf. rewrite (step_eating _ _ _ _ _ _ _ Hs Hinv Hle Hf).
    destruct (addnewfood_safe rand_in_range fuel (grown e (advance hd d)) g)
      as [->|([e1 g1] & ->)]; [left; reflexivity|].
    right. cbn [obind fst snd]. destruct (lv_food _ =? 0); eauto.
  - apply Cell_eqb_neq in Hf. right.
    rewrite (step_plain _ _ _ _ _ _ _ Hs Hinv Hle Hf). eauto.
Qed.

Lemma move_keeps_ready (fuel : nat) (mv : Movement) (e : SEngine) (g : RNG)
    (st : GameStatus) (e' : SEngine) (g' : RNG) :
  ready e ->
  move rand_in_range fuel mv e g = Done (st, e', g') ->
  ready e'.
Proof.
  intros (_ & IHx & IHy & IHl & IHf) Hm.
  destruct (move_keeps _ _ _ _ _ _ _ _ Hm) as (Hs & Hx & Hy & Hb & Hl).
  unfold ready, framed, interior, border_at, row_width in *.
  rewrite Hx, Hy, Hb, Hl. auto.
Qed.

(** X21. During a game no call misbehaves: [move] neither throws nor reads
    the head of an empty snake, it returns a status unless it is still
    re-rolling the food, and [to_wstr()] returns without writing outside
    the buffer.  This also holds for the render after a move that returned
    [LOST] or [WIN]. *)
Theorem game_calls_are_safe (e : SEngine) :
  reachable rand_in_range e ->
  (forall fuel mv g,
      move rand_in_range fuel mv e g = Spinning
      \/ exists st e' g',
           move rand_in_range fuel mv e g = Done (st, e', g')
           /\ exists e'', to_wstr false e' = Done e'')
  /\ exists e', to_wstr false e = Done e'.
Proof.
  intros Hr. pose proof (reachable_ready _ e Hr) as Hready. split.
  - intros fuel mv g. unfold move.
    destruct (step_safe fuel (clamp mv (prv_mv e)) e g) as [Hsp|([[st e'] g'] & Hd)];
      [apply Hready | left; exact Hsp |].
    right. exists st, e', g'. split; [exact Hd|].
    destruct (to_wstr_paints e' (move_keeps_ready fuel mv e g st e' g' Hready Hd))
      as (b & Hb & _).
    eauto.
  - destruct (to_wstr_paints e Hready) as (b & Hw & _). eauto.
Qed.

End Rendering.

(** ** What a picture depends on *)

Lemma find_in_members (s1 s2 : list Cell.t) (c : Cell.t) :
  (In c s1 <-> In c s2) -> find_in s1 c = find_in s2 c.
Proof.
  intros H. destruct (find_in s1 c) eqn:E1, (find_in s2 c) eqn:E2; try reflexivity.
  - apply find_in_true in E1. apply H, find_in_true in E1. congruence.
  - apply find_in_true in E2. apply H, find_in_true in E2. congruence.
Qed.

Lemma find_in_removelast (s : list Cell.t) (c : Cell.t) :
  last s <> Some c -> find_in (removelast s) c = find_in s c.
Proof.
  induction s as [|a r IH]; intros Hl; [reflexivity|].
  destruct r as [|b r'].
  - cbn [removelast find_in]. cbn in Hl.
    destruct (Cell.eqb a c) eqn:E; [|reflexivity].
    apply Cell_eqb_eq in E. congruence.
  - rewrite removelast_cons. cbn [find_in].
    destruct (Cell.eqb a c); [reflexivity|]. apply IH. exact Hl.
Qed.

(** X23. The text tells neither the head from the body nor the order of
    the cells: two engines with the same board, food and buffer whose snakes
    occupy the same cells are left with the same buffer by [to_wstr()]. *)
Theorem text_forgets_the_order (e1 e2 r1 r2 : SEngine) :
  ready e1 -> ready e2 ->
  xsz e1 = xsz e2 -> ysz e1 = ysz e2 -> food e1 = food e2 ->
  buffer e1 = buffer e2 ->
  (forall c, In c (snake e1) <-> In c (snake e2)) ->
  to_wstr false e1 = Done r1 -> to_wstr false e2 = Done r2 ->
  buffer r1 = buffer r2.
Proof.
  intros Hr1 Hr2 Hx Hy Hf Hb Hsame H1 H2.
  destruct (to_wstr_slots e1 Hr1) as (c1 & Hw1 & Hl1 & Hs1).
  destruct (to_wstr_slots e2 Hr2) as (c2 & Hw2 & Hl2 & Hs2).
  rewrite Hw1 in H1. rewrite Hw2 in H2. injection H1 as <-. injection H2 as <-.
  cbn [set_buffer buffer]. apply list_eq. intros i. rewrite Hs1, Hs2, Hb.
  assert (Hint : interior e1 i = interior e2 i)
    by (unfold interior, row_width; rewrite Hx, Hy; reflexivity).
  assert (Hg : glyph_at e1 i = glyph_at e2 i).
  { unfold glyph_at, cell_glyphs, cell_of_slot, find, row_width.
    rewrite Hy, Hf. rewrite (find_in_members (snake e1) (snake e2)) by apply Hsame.
    reflexivity. }
  rewrite Hint, Hg. reflexivity.
Qed.

Section Redraw.

Context {RNG : Type}.
Variable rand_in_range : Z -> Z -> RNG -> Z * RNG.

(** X24. A move that neither eats nor loses changes the picture of at most
    two cells: the new head, which becomes a block, and the cell the tail
    has left.  Every other cell has the glyph pair it had. *)
Theorem plain_move_redraws_two_cells (fuel : nat) (mv : Movement) (e : SEngine)
    (g : RNG) (hd : Cell.t) (tl : list Cell.t) (e' : SEngine) (g' : RNG) :
  clean_move e mv hd tl ->
  advance hd (applied e mv) <> food e ->
  move rand_in_range fuel mv e g = Done (NONE, e', g') ->
  cell_glyphs e' (advance hd (applied e mv)) = (FULL_BLOCK, FULL_BLOCK)
  /\ forall c, c <> advance hd (applied e mv) -> last (snake e) <> Some c ->
       cell_glyphs e' c = cell_glyphs e c.
Proof.
  intros (Hs & Hin & Hocc) Hfood Hm. unfold move, applied in *.
  rewrite (step_plain _ _ _ _ _ _ _ Hs Hin Hocc Hfood) in Hm.
  injection Hm as <- <-. unfold cell_glyphs, find. fields. split.
  - cbn [find_in]. rewrite Cell_eqb_refl. reflexivity.
  - intros c Hne Hl. cbn [find_in].
    replace (Cell.eqb (advance hd (clamp mv (prv_mv e))) c) with false
      by (symmetry; apply Cell_eqb_neq; congruence).
    rewrite Hs in Hl.
    change (match tl with [] => [] | _ :: _ => hd :: removelast tl end)
      with (removelast (hd :: tl)).
    rewrite (find_in_removelast (hd :: tl) c Hl), Hs. reflexivity.
Qed.

End Redraw.

(** ** The further properties at work *)

Lemma started_clean_left : clean_move started LEFT (Cell.mk 4 4) [Cell.mk 4 5].
Proof.
  unfold clean_move, inside. repeat split; vm_compute; congruence.
Defined.

Lemma started_left :
  move counter_rand 1 LEFT started 5%nat
  = Done (NONE, set_prv_mv (set_snake started [Cell.mk 4 3; Cell.mk 4 4]) LEFT, 5%nat).
Proof. vm_compute. reflexivity. Defined.

Lemma started_played : played counter_rand 9 9 1 0 started.
Proof.
  apply (played_ctor counter_rand 9 9 1 0 1 3%nat started 5%nat);
    unfold is_U, is_UU; try lia. exact started_built.
Defined.

Lemma counter_rand_keeps_range : keeps_range counter_rand.
Proof.
  intros lo hi n Hle. unfold counter_rand. cbn [fst].
  pose proof (Z.mod_pos_bound (Z.of_nat n) (hi - lo + 1) ltac:(lia)). lia.
Defined.

(** Following at work: [started] goes [LEFT]; the head is on [(4, 3)] and
    the second cell where the head was. *)
Lemma plain_move_started :
  exists e',
    move counter_rand 1 LEFT started 5%nat = Done (NONE, e', 5%nat)
    /\ snake e' = [Cell.mk 4 3; Cell.mk 4 4] /\ prv_mv e' = LEFT.
Proof.
  destruct (plain_move_follows counter_rand 1 LEFT started 5%nat (Cell.mk 4 4)
              [Cell.mk 4 5] started_clean_left)
    as (e' & Hm & Hs & _ & _ & _ & _ & _ & Hp & _).
  - vm_compute. congruence.
  - exists e'. split; [exact Hm|]. split; [exact Hs | exact Hp].
Defined.

(** The direction recorded after [started] has gone [DOWN]. *)
Lemma direction_recorded_started :
  exists e' g', move counter_rand 1 DOWN started 5%nat = Done (NONE, e', g')
                /\ prv_mv e' = DOWN.
Proof.
  eexists _, _. split; [vm_compute; reflexivity|].
  apply (move_records_direction counter_rand 1 DOWN started 5%nat NONE _ 5%nat).
  vm_compute. reflexivity.
Defined.

(** The status of [started] going [UP], onto its last food. *)
Lemma status_started_up :
  exists e' g',
    move counter_rand 1 UP started 5%nat = Done (WIN, e', g')
    /\ advance (Cell.mk 4 4) (applied started UP) = food started
    /\ lv_food started = 1.
Proof.
  assert (Hm : exists e' g', move counter_rand 1 UP started 5%nat = Done (WIN, e', g'))
    by (eexists _, _; vm_compute; reflexivity).
  destruct Hm as (e' & g' & Hm). exists e', g'. split; [exact Hm|].
  destruct (move_status counter_rand 1 UP started 5%nat WIN e' g' (Cell.mk 4 4) [Cell.mk 4 5])
    as [_ [Hwin _]].
  - reflexivity.
  - unfold is_U. vm_compute. split; congruence.
  - exact Hm.
  - destruct (Hwin eq_refl) as (_ & _ & Hf & Hl). split; assumption.
Defined.

(** The counters of [started] after it has gone [LEFT]. *)
Lemma counters_started_left :
  food (set_prv_mv (set_snake started [Cell.mk 4 3; Cell.mk 4 4]) LEFT) = food started
  /\ score (set_prv_mv (set_snake started [Cell.mk 4 3; Cell.mk 4 4]) LEFT) = score started
  /\ lv_food (set_prv_mv (set_snake started [Cell.mk 4 3; Cell.mk 4 4]) LEFT) = lv_food started
  /\ 5%nat = 5%nat.
Proof.
  apply (counters_change_only_by_eating counter_rand 1 LEFT started 5%nat NONE _ 5%nat
           (Cell.mk 4 4) [Cell.mk 4 5]).
  - reflexivity.
  - exact started_left.
  - right. vm_compute. congruence.
Defined.

(** Eating after the win: [won] goes [UP] onto the food. *)
Lemma eating_after_win_won :
  exists e' g', move counter_rand 1 UP won 5%nat = Done (NONE, e', g')
                /\ lv_food e' = 255.
Proof.
  assert (Hm : exists e' g', move counter_rand 1 UP won 5%nat = Done (NONE, e', g'))
    by (eexists _, _; vm_compute; reflexivity).
  destruct Hm as (e' & g' & Hm). exists e', g'. split; [exact Hm|].
  destruct (eating_after_win_wraps counter_rand 1 UP won 5%nat (Cell.mk 4 4)
              [Cell.mk 4 5; Cell.mk 4 6] NONE e' g') as (_ & Hlv & _).
  - unfold eating_move, clean_move, inside. repeat split; vm_compute; congruence.
  - reflexivity.
  - exact Hm.
  - exact Hlv.
Defined.

(** A step up from the top line and back, through 255. *)
Lemma round_trip_through_255 :
  advance (Cell.mk 0 0) UP = Cell.mk 255 0
  /\ advance (advance (Cell.mk 0 0) UP) (opposite UP) = Cell.mk 0 0.
Proof.
  split; [reflexivity|].
  apply (advance_round_trip (Cell.mk 0 0) UP); unfold is_U; cbn; lia.
Defined.

(** Rejection at work: on [cornered] with the counter at 0 the first cell
    drawn, [(0, 1)], is on the snake and the second, [(2, 3)], becomes the
    food. *)
Lemma first_free_cornered :
  exists n e' g',
    addnewfood counter_rand 5 cornered 0%nat = Done (e', g')
    /\ n = 1%nat /\ food e' = Cell.mk 2 3 /\ g' = 4%nat.
Proof.
  destruct (addnewfood_first_free counter_rand 5 cornered 0%nat
              (set_food cornered (Cell.mk 2 3)) 4%nat)
    as (n & Hn & He & Hfree & Hbefore & Hg).
  - vm_compute. reflexivity.
  - exists n, (set_food cornered (Cell.mk 2 3)), 4%nat.
    split; [vm_compute; reflexivity|].
    split; [|split; reflexivity].
    destruct n as [|[|n]].
    + vm_compute in Hfree. discriminate.
    + reflexivity.
    + specialize (Hbefore 1%nat ltac:(lia)). vm_compute in Hbefore. discriminate.
Defined.

(** Spinning at work: the stuck generator always draws [(0, 0)], which is
    on [cornered]. *)
Lemma spins_cornered : addnewfood stuck_rand 1000 cornered tt = Spinning.
Proof.
  apply (addnewfood_spins stuck_rand 1000 cornered tt).
  intros n. unfold candidate.
  assert (Hg : generator_after stuck_rand n cornered tt = tt)
    by (destruct (generator_after stuck_rand n cornered tt); reflexivity).
  rewrite Hg. reflexivity.
Defined.

(** The two messages of the constructor. *)
Lemma construction_errors_8_9 :
  SEngine_ctor counter_rand 1 8 9 0 0 0%nat = Thrown "board size too small"
  /\ SEngine_ctor counter_rand 1 9 9 0 0 0%nat = Thrown "food must to be at least 1".
Proof.
  split.
  - apply (construction_errors counter_rand 1 8 9 0 0 0%nat). lia.
  - apply (construction_errors counter_rand 1 9 9 0 0 0%nat); lia.
Defined.

(** The cells of [started] are cells of the 9 x 9 board. *)
Lemma in_grid_started :
  0 <= Cell.x (Cell.mk 4 5) < xsz started /\ 0 <= Cell.y (Cell.mk 4 5) < ysz started.
Proof.
  apply (snake_stays_in_grid counter_rand started started_reachable).
  right. left. reflexivity.
Defined.

Lemma no_overlap_started : List.NoDup (snake started).
Proof. apply (snake_never_overlaps counter_rand started started_reachable). Defined.

Lemma chain_started : (2 <= List.length (snake started))%nat /\ chain (snake started).
Proof. apply (snake_is_a_chain counter_rand started started_reachable). Defined.

(** [started] heads [LEFT] with its second cell on the right: asked to go
    [RIGHT], its head goes to [(4, 3)], not onto the second cell. *)
Lemma neck_started :
  advance (Cell.mk 4 5) (prv_mv started) = Cell.mk 4 4
  /\ advance (Cell.mk 4 4) (applied started RIGHT) <> Cell.mk 4 5.
Proof.
  destruct (head_never_turns_into_neck counter_rand started (Cell.mk 4 4) (Cell.mk 4 5) []
              started_reachable eq_refl) as [Hback Hnever].
  split; [exact Hback | apply Hnever].
Defined.

(** The counts of [started], fresh from [SEngine(9, 9, 1, 0)]. *)
Lemma accounting_started :
  xsz started = 9 /\ ysz started = 9
  /\ 1 <= get_food started <= 1
  /\ Z.of_nat (List.length (snake started)) = 2 + (1 - get_food started)
  /\ get_score started = to_UU (0 + (1 - get_food started)).
Proof. apply (game_accounting counter_rand 9 9 1 0 started started_played). Defined.

(** The game [SEngine(9, 9, 1, 0)] is won by going [UP]: three cells and
    score 1. *)
Lemma won_started :
  exists e' g',
    move counter_rand 1 UP started 5%nat = Done (WIN, e', g')
    /\ get_food e' = 0 /\ Z.of_nat (List.length (snake e')) = 2 + 1
    /\ get_score e' = to_UU (0 + 1).
Proof.
  assert (Hm : exists e' g', move counter_rand 1 UP started 5%nat = Done (WIN, e', g'))
    by (eexists _, _; vm_compute; reflexivity).
  destruct Hm as (e' & g' & Hm). exists e', g'. split; [exact Hm|].
  apply (game_won counter_rand 1 UP 9 9 1 0 started 5%nat e' g' started_played Hm).
Defined.

(** The food of [started] is a cell of the board. *)
Lemma food_in_grid_started :
  0 <= Cell.x (food started) < xsz started /\ 0 <= Cell.y (food started) < ysz started.
Proof.
  apply (food_stays_in_grid counter_rand started counter_rand_keeps_range started_reachable).
Defined.

(** Rendering [started] keeps its snake. *)
Lemma render_keeps_started :
  exists e', to_wstr false started = Done e' /\ snake e' = snake started
             /\ food e' = food started.
Proof.
  assert (Hw : exists e', to_wstr false started = Done e')
    by (eexists; vm_compute; reflexivity).
  destruct Hw as (e' & Hw). exists e'. split; [exact Hw|].
  destruct (render_keeps_the_game false started e' Hw) as (Hs & Hf & _). auto.
Defined.

(** Rendering [started] twice. *)
Lemma idempotent_started :
  exists e1, to_wstr false started = Done e1 /\ to_wstr false e1 = Done e1.
Proof.
  assert (Hw : exists e', to_wstr false started = Done e')
    by (eexists; vm_compute; reflexivity).
  destruct Hw as (e1 & Hw). exists e1. split; [exact Hw|].
  apply (to_wstr_idempotent counter_rand started e1 started_reachable Hw).
Defined.

(** Rendering [started] keeps the first slot of the border. *)
Lemma border_kept_started :
  exists e', to_wstr false started = Done e'
             /\ buffer e' !! 0%nat = buffer started !! 0%nat.
Proof.
  assert (Hw : exists e', to_wstr false started = Done e')
    by (eexists; vm_compute; reflexivity).
  destruct Hw as (e' & Hw). exists e'. split; [exact Hw|].
  destruct (to_wstr_keeps_the_border counter_rand started e' started_reachable Hw)
    as [_ Hkeep].
  apply Hkeep. reflexivity.
Defined.

(** The text of [started] has 11 lines of 23 slots. *)
Lemma lines_started :
  exists e', to_wstr false started = Done e'
             /\ length e' = (9 + 2) * (2 * 9 + 5)
             /\ buffer e' !! 22%nat = Some (wch NEWLINE).
Proof.
  assert (Hw : exists e', to_wstr false started = Done e')
    by (eexists; vm_compute; reflexivity).
  destruct Hw as (e' & Hw). exists e'. split; [exact Hw|].
  destruct (text_is_a_block_of_lines counter_rand started e' started_reachable Hw)
    as [Hlen Hslots].
  split; [exact Hlen|].
  destruct (Hslots 22%nat) as (c & Hc & Hnl).
  - rewrite Hlen. vm_compute. lia.
  - rewrite Hc. f_equal. f_equal. apply Hnl. reflexivity.
Defined.

(** No call on [started] misbehaves. *)
Lemma safe_started :
  (forall fuel mv g,
      move counter_rand fuel mv started g = Spinning
      \/ exists st e' g',
           move counter_rand fuel mv started g = Done (st, e', g')
           /\ exists e'', to_wstr false e' = Done e'')
  /\ exists e', to_wstr false started = Done e'.
Proof. apply (game_calls_are_safe counter_rand started started_reachable). Defined.

(** [started] with its two cells in the other order gives the same text. *)
Lemma order_forgotten_started :
  exists r1 r2,
    to_wstr false started = Done r1
    /\ to_wstr false (set_snake started [Cell.mk 4 5; Cell.mk 4 4]) = Done r2
    /\ buffer r1 = buffer r2.
Proof.
  assert (Hw1 : exists r1, to_wstr false started = Done r1)
    by (eexists; vm_compute; reflexivity).
  assert (Hw2 : exists r2, to_wstr false (set_snake started [Cell.mk 4 5; Cell.mk 4 4]) = Done r2)
    by (eexists; vm_compute; reflexivity).
  destruct Hw1 as (r1 & Hw1). destruct Hw2 as (r2 & Hw2).
  exists r1, r2. split; [exact Hw1|]. split; [exact Hw2|].
  pose proof (reachable_ready counter_rand started started_reachable) as Hready.
  apply (text_forgets_the_order started (set_snake started [Cell.mk 4 5; Cell.mk 4 4]) r1 r2);
    try reflexivity; try assumption.
  - destruct Hready as (_ & Hx & Hy & Hl & Hfr).
    unfold ready. split; [discriminate|]. auto.
  - intros c. cbn. tauto.
Defined.

(** After [started] has gone [LEFT] the cell [(4, 3)] is drawn as a block
    and the far corner as before. *)
Lemma redraw_started :
  cell_glyphs (set_prv_mv (set_snake started [Cell.mk 4 3; Cell.mk 4 4]) LEFT) (Cell.mk 4 3)
  = (FULL_BLOCK, FULL_BLOCK)
  /\ cell_glyphs (set_prv_mv (set_snake started [Cell.mk 4 3; Cell.mk 4 4]) LEFT) (Cell.mk 8 8)
     = cell_glyphs started (Cell.mk 8 8).
Proof.
  destruct (plain_move_redraws_two_cells counter_rand 1 LEFT started 5%nat (Cell.mk 4 4)
              [Cell.mk 4 5]
              (set_prv_mv (set_snake started [Cell.mk 4 3; Cell.mk 4 4]) LEFT) 5%nat
              started_clean_left) as [Hhead Hrest].
  - vm_compute. congruence.
  - exact started_left.
  - split; [exact Hhead|]. apply Hrest; vm_compute; congruence.
Defined.
